(** * ProcessManager (code-d): probing and stopping serve-d, dcd-server, dcd-client

    A shallow embedding of the [ProcessManager] class.  Asynchronous
    functions become trees of suspension points (external commands, the
    settle timer, console output); a system interface executes the commands,
    so every statement below holds for any behaviour of the process table. *)

From Stdlib Require Import String Ascii List ZArith Bool Lia DecimalString
  Permutation DecimalPos DecimalZ.
Import ListNotations.
Open Scope string_scope.
Open Scope Z_scope.

(* ================================================================== *)
(** ** JavaScript strings

    A [string] is read as a sequence of UTF-16 code units below 256. *)

Module JsString.

(** [WhiteSpace] and [LineTerminator] code units below 256: TAB, LF, VT,
    FF, CR, SP and NBSP. *)
Definition is_space (c : ascii) : bool :=
  let n := nat_of_ascii c in
  ((9 <=? n) && (n <=? 13) || (n =? 32) || (n =? 160))%nat.

Definition is_empty (s : string) : bool :=
  match s with EmptyString => true | String _ _ => false end.

Fixpoint trimStart (s : string) : string :=
  match s with
  | EmptyString => EmptyString
  | String c s' => if is_space c then trimStart s' else s
  end.

Fixpoint trimEnd (s : string) : string :=
  match s with
  | EmptyString => EmptyString
  | String c s' =>
      let r := trimEnd s' in
      if is_space c && is_empty r then EmptyString else String c r
  end.

(** [String.prototype.trim] *)
Definition trim (s : string) : string := trimEnd (trimStart s).

(** [s.split(sep)] for a non-empty separator [sep].  [skip] counts the code
    units of a separator occurrence still to be dropped, [cur] is the piece
    being read, reversed. *)
Fixpoint split_go (sep : string) (skip : nat) (cur : list ascii) (s : string)
  : list string :=
  match s with
  | EmptyString => [string_of_list_ascii (rev cur)]
  | String c s' =>
      match skip with
      | S n => split_go sep n cur s'
      | O =>
          if prefix sep s
          then string_of_list_ascii (rev cur)
                 :: split_go sep (String.length sep - 1) [] s'
          else split_go sep 0 (c :: cur) s'
      end
  end.

Definition split (sep s : string) : list string := split_go sep 0 [] s.

(** [s.includes(needle)] *)
Fixpoint includes (needle s : string) : bool :=
  prefix needle s
  || match s with
     | EmptyString => false
     | String _ s' => includes needle s'
     end.

(** [s.replace(/c/g, "")] for a single code unit [c]. *)
Fixpoint remove_all (c : ascii) (s : string) : string :=
  match s with
  | EmptyString => EmptyString
  | String d s' =>
      if Ascii.eqb c d then remove_all c s' else String d (remove_all c s')
  end.

Definition dquote : ascii := "034"%char.
Definition LF : string := String "010"%char EmptyString.
Definition CRLF : string := String "013"%char LF.

(** [`"${s}"`] *)
Definition quoted (s : string) : string :=
  String dquote s ++ String dquote EmptyString.

End JsString.

(* ================================================================== *)
(** ** JavaScript numbers

    The numbers of this program are the results of [parseInt(_, 10)] and the
    literal [-1]: [NaN], or the Number value of an integer.  [Int z] stands
    for the Number nearest to [z] (the two zeros are identified); below 2^53
    in magnitude it is [z] itself. *)

Module JsNumber.

Inductive number : Type :=
| NaN
| Int (z : Z).

Definition isNaN (n : number) : bool :=
  match n with NaN => true | Int _ => false end.

Definition digit (c : ascii) : option Z :=
  let n := nat_of_ascii c in
  if ((48 <=? n) && (n <=? 57))%nat then Some (Z.of_nat n - 48) else None.

(** The longest prefix of decimal digits of [s], read with accumulator
    [acc]; [seen] records whether a digit was read. *)
Fixpoint digits (s : string) (seen : bool) (acc : Z) : option Z :=
  match s with
  | EmptyString => if seen then Some acc else None
  | String c s' =>
      match digit c with
      | Some d => digits s' true (10 * acc + d)
      | None => if seen then Some acc else None
      end
  end.

(** [parseInt(s, 10)]: leading white space is skipped, one sign is read,
    then the longest run of decimal digits; no digit gives [NaN]. *)
Definition parseInt (s : string) : number :=
  match JsString.trimStart s with
  | EmptyString => NaN
  | String c rest =>
      if Ascii.eqb c "-" then
        match digits rest false 0 with Some z => Int (- z) | None => NaN end
      else if Ascii.eqb c "+" then
        match digits rest false 0 with Some z => Int z | None => NaN end
      else
        match digits (String c rest) false 0 with
        | Some z => Int z
        | None => NaN
        end
  end.

(** [ToString(undefined)], the text [parseInt] reads when handed a missing
    array element. *)
Definition undefined_text : string := "undefined".

(** [`${n}`]: decimal digits (exact below 10^21 in magnitude). *)
Definition toString (n : number) : string :=
  match n with
  | NaN => "NaN"
  | Int z => NilZero.string_of_int (Z.to_int z)
  end.

End JsNumber.

Import JsString JsNumber.

(* ================================================================== *)
(** ** ProcessInfo and formatProcessStatus *)

Record ProcessInfo : Type := mkProcessInfo {
  name : string;
  pid : number;
  running : bool;
  command : option string
}.

(** [{ name, pid: -1, running: false }] *)
Definition not_running (name : string) : ProcessInfo :=
  {| name := name; pid := Int (-1); running := false; command := None |}.

Definition formatProcessStatus (info : ProcessInfo) : string :=
  let icon := if running info then "$(check)" else "$(x)" in
  let status := if running info then "running" else "stoped" in
  let pidInfo :=
    if running info then " (PID: " ++ toString (pid info) ++ ")" else "" in
  icon ++ " " ++ name info ++ ": " ++ status ++ pidInfo.

(* ================================================================== *)
(** ** Asynchronous tasks over external commands *)

(** The error object a failed [exec] rejects with: [code] is the exit status
    when it is a number ([None] for a missing or non-numeric code). *)
Record Error : Type := mkError {
  code : option Z;
  message : string
}.

Definition code_is (n : Z) (e : Error) : bool :=
  match code e with
  | Some c => c =? n
  | None => false
  end.

(** What [await exec(cmd)] gives back: the captured standard output, or the
    rejection. *)
Inductive ExecResult : Type :=
| ExecOk (stdout : string)
| ExecErr (err : Error).

(** The arguments of the [console.log] calls. *)
Inductive LogMsg : Type :=
| LogKilling (name : string) (force : bool)
| LogSent (name : string)
| LogFound (name : string) (pids : list string)
| LogStillRunning (name : string)
| LogStoppingAll (force : bool)
| LogAllStopped (served dcdServer dcdClient : bool).

(** The state of the promise an [async] function returns.  [Pending] is a
    promise that is never settled. *)
Inductive Outcome (A : Type) : Type :=
| Fulfilled (a : A)
| Rejected (e : Error)
| Pending.
Arguments Fulfilled {A} a.
Arguments Rejected {A} e.
Arguments Pending {A}.

(** A task is the tree of its suspension points: [await exec(cmd)], the
    [setTimeout] delay, and console output in between. *)
Inductive Task (A : Type) : Type :=
| Ret (a : A)
| Exec (cmd : string) (k : ExecResult -> Task A)
| Sleep (ms : Z) (k : Task A)
| Log (m : LogMsg) (k : Task A).
Arguments Ret {A} a.
Arguments Exec {A} cmd k.
Arguments Sleep {A} ms k.
Arguments Log {A} m k.

Fixpoint bind {A B : Type} (t : Task A) (f : A -> Task B) : Task B :=
  match t with
  | Ret a => f a
  | Exec cmd k => Exec cmd (fun r => bind (k r) f)
  | Sleep ms k => Sleep ms (bind k f)
  | Log m k => Log m (bind k f)
  end.

(** An [async] function body: a task that ends in the state of its promise. *)
Definition Async (A : Type) : Type := Task (Outcome A).

Definition aret {A : Type} (a : A) : Async A := Ret (Fulfilled a).
Definition athrow {A : Type} (e : Error) : Async A := Ret (Rejected e).

(** [const x = await t; k x] *)
Definition abind {A B : Type} (t : Async A) (f : A -> Async B) : Async B :=
  bind t (fun o =>
    match o with
    | Fulfilled a => f a
    | Rejected e => Ret (Rejected e)
    | Pending => Ret Pending
    end).

(** [try { t } catch (e) { h e }] *)
Definition try_catch {A : Type} (t : Async A) (h : Error -> Async A) : Async A :=
  bind t (fun o =>
    match o with
    | Rejected e => h e
    | _ => Ret o
    end).

(** [exec(cmd)], promisified: fulfils with the standard output. *)
Definition exec (cmd : string) : Async string :=
  Exec cmd (fun r =>
    match r with
    | ExecOk stdout => aret stdout
    | ExecErr e => athrow e
    end).

Notation "'await' x <- t ;; k" := (abind t (fun x => k))
  (at level 61, x name, t at next level, right associativity).

(* ================================================================== *)
(** ** Running a task on a system *)

(** The system a task runs on: executing a command gives its result and the
    system afterwards; time passing changes the system too. *)
Class System (World : Type) : Type := {
  os_exec : string -> World -> ExecResult * World;
  os_sleep : Z -> World -> World
}.

Inductive Event : Type :=
| EvExec (cmd : string) (res : ExecResult)
| EvSleep (ms : Z)
| EvLog (m : LogMsg).

Record Run (A World : Type) : Type := mkRun {
  trace : list Event;
  value : A;
  final : World
}.
Arguments mkRun {A World} trace value final.
Arguments trace {A World} r.
Arguments value {A World} r.
Arguments final {A World} r.

Definition after {A World : Type} (ev : Event) (r : Run A World) : Run A World :=
  mkRun (ev :: trace r) (value r) (final r).

Fixpoint run {World : Type} `{System World} {A : Type} (t : Task A) (w : World)
  : Run A World :=
  match t with
  | Ret a => mkRun [] a w
  | Exec cmd k =>
      let (r, w') := os_exec cmd w in after (EvExec cmd r) (run (k r) w')
  | Sleep ms k => after (EvSleep ms) (run k (os_sleep ms w))
  | Log m k => after (EvLog m) (run k w)
  end.

(* ================================================================== *)
(** ** checkProcess *)

Section Manager.

(** [process.platform] *)
Variable platform : string.

Definition tasklist_cmd (name : string) : string :=
  "tasklist /FI " ++ quoted ("IMAGENAME eq " ++ name ++ ".exe")
    ++ " /FO CSV /NH".

(** Lines 136-147: what the output of [tasklist] is read as. *)
Definition tasklist_info (name stdout : string) : ProcessInfo :=
  let lines := split CRLF (trim stdout) in
  match lines with
  | line0 :: _ =>
      if includes name line0 then
        let parts := split "," (remove_all dquote line0) in
        let pid := parseInt (nth 1 parts undefined_text) in
        {| name := name; pid := pid; running := true;
           command := nth_error parts 0 |}
      else not_running name
  | [] => not_running name
  end.

Definition checkProcessWindows (name : string) : Async ProcessInfo :=
  try_catch
    (await stdout <- exec (tasklist_cmd name) ;;
     aret (tasklist_info name stdout))
    (fun _ => aret (not_running name)).

Definition pgrep_f (name : string) : string := "pgrep -f " ++ quoted name.
Definition pgrep_x (name : string) : string := "pgrep -x " ++ quoted name.
Definition pgrep_path (name : string) : string :=
  "pgrep -f " ++ quoted ("/.*" ++ name).

Definition patterns (name : string) : list string :=
  [pgrep_f name; pgrep_x name; pgrep_path name].

(** The lines of a [pgrep] output that read as a number. *)
Definition pid_lines (stdout : string) : list string :=
  filter (fun line => negb (is_empty line) && negb (isNaN (parseInt line)))
         (split LF (trim stdout)).

(** Lines 164-175: the [return] taken when the output of a [pgrep] has a
    pid line, [None] when the loop goes on. *)
Definition pgrep_info (name stdout : string) : option ProcessInfo :=
  match pid_lines stdout with
  | pid0 :: _ =>
      Some {| name := name; pid := parseInt pid0; running := true;
              command := None |}
  | [] => None
  end.

(** The [for (const pattern of patterns)] loop. *)
Fixpoint checkProcessUnix_loop (name : string) (pats : list string)
  : Async ProcessInfo :=
  match pats with
  | [] => aret (not_running name)
  | pattern :: rest =>
      await found <-
        try_catch
          (await stdout <- exec pattern ;; aret (pgrep_info name stdout))
          (fun _ => aret None) ;;
      match found with
      | Some info => aret info
      | None => checkProcessUnix_loop name rest
      end
  end.

Definition checkProcessUnix (name : string) : Async ProcessInfo :=
  try_catch (checkProcessUnix_loop name (patterns name))
            (fun _ => aret (not_running name)).

Definition checkProcess (name : string) : Async ProcessInfo :=
  if String.eqb platform "win32"
  then checkProcessWindows name
  else checkProcessUnix name.

(* ---------------------------------------------------------------- *)
(** ** killProcess *)

Definition taskkill_cmd (flag name : string) : string :=
  "taskkill " ++ flag ++ " /IM " ++ quoted (name ++ ".exe").

Definition killProcessWindows (name : string) (force : bool) : Async bool :=
  let flag := if force then "/F" else "" in
  try_catch
    (await _ <- exec (taskkill_cmd flag name) ;; aret true)
    (fun error =>
       (* Code 128 means process not found - not an error *)
       if code_is 128 error then aret false else athrow error).

Definition signal_of (force : bool) : string :=
  if force then "-9" else "-15".

Definition broad_cmd (signal name : string) : string :=
  "killall " ++ signal ++ " " ++ name ++ " 2>/dev/null || pkill "
    ++ signal ++ " -f " ++ name ++ " 2>/dev/null".

Definition kill_cmd (signal pid : string) : string :=
  "kill " ++ signal ++ " " ++ pid.

(** The non-empty lines of the [pgrep] output of the targeted phase. *)
Definition remaining_pids (stdout : string) : list string :=
  filter (fun line => negb (is_empty line)) (split LF (trim stdout)).

(** The local variable [killed] of [killProcessUnix] is threaded through
    the blocks below; the [try] block of lines 220-264 ends with the value
    [killed] has at that point and one of: a [return killed], the
    [return this.killProcessUnix(name, true)], or an exception on its way
    to the [catch] of line 265. *)
Inductive TryReturn : Type :=
| ReturnKilled
| ReturnForced.

(** [for (const pid of pids) try { await exec(kill); killed = true } catch {}] *)
Fixpoint kill_each (signal : string) (pids : list string) (killed : bool)
  : Task bool :=
  match pids with
  | [] => Ret killed
  | pid :: rest =>
      Exec (kill_cmd signal pid) (fun r =>
        match r with
        | ExecOk _ => kill_each signal rest true
        | ExecErr _ => kill_each signal rest killed
        end)
  end.

(** Lines 254-262, entered when [force] is false. *)
Definition settle_check (name : string) (killed : bool)
  : Task (Outcome TryReturn * bool) :=
  Sleep 1000
    (bind (checkProcess name) (fun o =>
       match o with
       | Fulfilled stillRunning =>
           if running stillRunning
           then Log (LogStillRunning name)
                    (Ret (Fulfilled ReturnForced, killed))
           else Ret (Fulfilled ReturnKilled, killed)
       | Rejected e => Ret (Rejected e, killed)
       | Pending => Ret (Pending, killed)
       end)).

(** Lines 231-264: list the pids, signal each, then check. *)
Definition targeted_phase (name : string) (force : bool) (killed : bool)
  : Task (Outcome TryReturn * bool) :=
  Exec (pgrep_f name) (fun r =>
    match r with
    | ExecErr e => Ret (Rejected e, killed)
    | ExecOk stdout =>
        let pids := remaining_pids stdout in
        bind (match pids with
              | [] => Ret killed
              | _ :: _ =>
                  Log (LogFound name pids)
                      (kill_each (signal_of force) pids killed)
              end)
             (fun killed =>
                if negb force
                then settle_check name killed
                else Ret (Fulfilled ReturnKilled, killed))
    end).

(** The whole [try] block, from [killed = false]. *)
Definition killProcessUnix_try (name : string) (force : bool)
  : Task (Outcome TryReturn * bool) :=
  Exec (broad_cmd (signal_of force) name) (fun r =>
    match r with
    | ExecOk _ => Log (LogSent name) (targeted_phase name force true)
    | ExecErr _ => targeted_phase name force false
    end).

(** [killProcessUnix], with the depth of its recursion bounded by [fuel];
    out of fuel the promise stays pending. *)
Fixpoint killProcessUnix_rec (fuel : nat) (name : string) (force : bool)
  : Async bool :=
  match fuel with
  | O => Ret Pending
  | S fuel' =>
      Log (LogKilling name force)
        (bind (killProcessUnix_try name force) (fun '(o, killed) =>
           match o with
           | Fulfilled ReturnKilled => aret killed
           | Fulfilled ReturnForced => killProcessUnix_rec fuel' name true
           | Rejected error =>
               if code_is 1 error then aret killed else athrow error
           | Pending => Ret Pending
           end))
  end.

(** Two levels are all the recursion there is (see
    [killProcessUnix_rec_fuel]). *)
Definition killProcessUnix (name : string) (force : bool) : Async bool :=
  killProcessUnix_rec 2 name force.

Definition killProcess (name : string) (force : bool) : Async bool :=
  if String.eqb platform "win32"
  then killProcessWindows name force
  else killProcessUnix name force.

End Manager.

(* ================================================================== *)
(** ** Promise.all over the three managed names

    The three calls of [Promise.all([...])] run interleaved: a schedule says
    which call's pending suspension point completes next.  Commands are taken
    to act on the system one at a time, in the order they complete.  Once the
    schedule is used up the calls still running are run to their end, first
    to last, so every schedule gives a complete execution and every complete
    interleaving is the execution of some schedule. *)

Inductive Slot : Type := Slot0 | Slot1 | Slot2.

Definition slot_eqb (i j : Slot) : bool :=
  match i, j with
  | Slot0, Slot0 | Slot1, Slot1 | Slot2, Slot2 => true
  | _, _ => false
  end.

Section PromiseAll.

Context {World : Type} `{System World} {A : Type}.

Definition Pool : Type := Slot -> Async A.

Definition update (i : Slot) (t : Async A) (p : Pool) : Pool :=
  fun j => if slot_eqb i j then t else p j.

Record ParState : Type := mkParState {
  pool : Pool;
  world : World;
  events : list Event;
  (** the reason of the first call that rejected, if one did *)
  first_rejection : option Error
}.

Definition rejection (t : Async A) : option Error :=
  match t with
  | Ret (Rejected e) => Some e
  | _ => None
  end.

(** The promise state of a call: pending until its task has returned. *)
Definition outcome (t : Async A) : Outcome A :=
  match t with
  | Ret o => o
  | _ => Pending
  end.

Definition or_else (a b : option Error) : option Error :=
  match a with
  | Some e => Some e
  | None => b
  end.

(** The pending suspension point of a task completes. *)
Definition step (t : Async A) (w : World) : Async A * World * list Event :=
  match t with
  | Ret _ => (t, w, [])
  | Exec cmd k => let (r, w') := os_exec cmd w in (k r, w', [EvExec cmd r])
  | Sleep ms k => (k, os_sleep ms w, [EvSleep ms])
  | Log m k => (k, w, [EvLog m])
  end.

Definition advance (s : ParState) (i : Slot) : ParState :=
  let '(t', w', evs) := step (pool s i) (world s) in
  mkParState (update i t' (pool s)) w' (events s ++ evs)
             (or_else (first_rejection s) (rejection t')).

Definition finish (s : ParState) (i : Slot) : ParState :=
  let r := run (pool s i) (world s) in
  mkParState (update i (Ret (value r)) (pool s)) (final r)
             (events s ++ trace r)
             (or_else (first_rejection s) (rejection (Ret (value r)))).

Definition start (p : Pool) (w : World) : ParState :=
  mkParState p w []
    (or_else (rejection (p Slot0))
       (or_else (rejection (p Slot1)) (rejection (p Slot2)))).

(** The state once all three calls have run to their end. *)
Definition settle_all (sched : list Slot) (p : Pool) (w : World) : ParState :=
  fold_left finish [Slot0; Slot1; Slot2]
    (fold_left advance sched (start p w)).

(** The promise [Promise.all] returns: rejected with the first rejection,
    else fulfilled with the three values once all are there. *)
Definition joined (s : ParState) : Outcome (A * A * A) :=
  match first_rejection s with
  | Some e => Rejected e
  | None =>
      match outcome (pool s Slot0), outcome (pool s Slot1),
            outcome (pool s Slot2) with
      | Fulfilled a, Fulfilled b, Fulfilled c => Fulfilled (a, b, c)
      | _, _, _ => Pending
      end
  end.

Definition Promise_all (sched : list Slot) (p : Pool) (w : World)
  : Run (Outcome (A * A * A)) World :=
  let s := settle_all sched p w in
  mkRun (events s) (joined s) (world s).

End PromiseAll.

Definition pool_of {A : Type} (t0 t1 t2 : Async A) : @Pool A :=
  fun i => match i with Slot0 => t0 | Slot1 => t1 | Slot2 => t2 end.

(* ================================================================== *)
(** ** checkAllProcesses and killAllProcesses *)

Record AllInfo : Type := mkAllInfo {
  served_info : ProcessInfo;
  dcdServer_info : ProcessInfo;
  dcdClient_info : ProcessInfo
}.

Record AllKilled : Type := mkAllKilled {
  served : bool;
  dcdServer : bool;
  dcdClient : bool
}.

(** The managed names, in the order of the result's keys [served],
    [dcdServer], [dcdClient]. *)
Definition managed (i : Slot) : string :=
  match i with
  | Slot0 => "serve-d"
  | Slot1 => "dcd-server"
  | Slot2 => "dcd-client"
  end.

Section Orchestrator.

Context {World : Type} `{System World}.
Variable platform : string.

Definition check_pool : @Pool ProcessInfo :=
  pool_of (checkProcess platform "serve-d")
          (checkProcess platform "dcd-server")
          (checkProcess platform "dcd-client").

Definition checkAllProcesses (sched : list Slot) (w : World)
  : Run (Outcome AllInfo) World :=
  let r := Promise_all sched check_pool w in
  match value r with
  | Fulfilled (served, dcdServer, dcdClient) =>
      mkRun (trace r) (Fulfilled (mkAllInfo served dcdServer dcdClient))
            (final r)
  | Rejected e => mkRun (trace r) (Rejected e) (final r)
  | Pending => mkRun (trace r) Pending (final r)
  end.

Definition kill_pool (force : bool) : @Pool bool :=
  pool_of (killProcess platform "serve-d" force)
          (killProcess platform "dcd-server" force)
          (killProcess platform "dcd-client" force).

Definition killAllProcesses (sched : list Slot) (force : bool) (w : World)
  : Run (Outcome AllKilled) World :=
  let r := Promise_all sched (kill_pool force) w in
  match value r with
  | Fulfilled (served, dcdServer, dcdClient) =>
      mkRun (EvLog (LogStoppingAll force) :: trace r
               ++ [EvLog (LogAllStopped served dcdServer dcdClient)])
            (Fulfilled (mkAllKilled served dcdServer dcdClient))
            (final r)
  | Rejected e =>
      mkRun (EvLog (LogStoppingAll force) :: trace r) (Rejected e) (final r)
  | Pending =>
      mkRun (EvLog (LogStoppingAll force) :: trace r) Pending (final r)
  end.

End Orchestrator.

(* ================================================================== *)
(** ** A scripted system

    Commands are answered from a script: a command gets the first answer
    listed for it, which is then used up; a command with no answer left
    fails like a command the shell cannot find (status 127). *)

Module Scripted.

Definition Script : Type := list (string * ExecResult).

Definition not_found : Error := mkError (Some 127) "command not found".

Fixpoint answer (cmd : string) (s : Script) : ExecResult * Script :=
  match s with
  | [] => (ExecErr not_found, [])
  | (c, r) :: rest =>
      if String.eqb c cmd then (r, rest)
      else let (r', rest') := answer cmd rest in (r', (c, r) :: rest')
  end.

#[export] Instance system : System Script := {
  os_exec := answer;
  os_sleep := fun _ s => s
}.

End Scripted.
Import Scripted.

(* ================================================================== *)
(** ** Reading traces *)

(** The commands of a trace, in the order they were executed. *)
Fixpoint commands (tr : list Event) : list string :=
  match tr with
  | [] => []
  | EvExec cmd _ :: rest => cmd :: commands rest
  | _ :: rest => commands rest
  end.

(** The suspension points of a trace: what is left without the console
    output. *)
Definition effects (tr : list Event) : list Event :=
  filter (fun ev => match ev with EvLog _ => false | _ => true end) tr.

(** The invocations of [killProcessUnix] a trace records, by the line each
    writes to the console on entry. *)
Fixpoint invocations (tr : list Event) : list (string * bool) :=
  match tr with
  | [] => []
  | EvLog (LogKilling name force) :: rest => (name, force) :: invocations rest
  | _ :: rest => invocations rest
  end.

(** What a [pgrep] of the probe yields: the pid lines of its output, nothing
    when the command failed. *)
Definition yield (r : ExecResult) : list string :=
  match r with
  | ExecOk stdout => pid_lines stdout
  | ExecErr _ => []
  end.

(** What one round of the probe's loop makes of a command's result. *)
Definition found (name : string) (r : ExecResult) : option ProcessInfo :=
  match r with
  | ExecOk stdout => pgrep_info name stdout
  | ExecErr _ => None
  end.

Definition succeeded (r : ExecResult) : bool :=
  match r with
  | ExecOk _ => true
  | ExecErr _ => false
  end.

(** No command of the trace succeeded. *)
Definition all_failed (tr : list Event) : bool :=
  forallb (fun ev => match ev with
                     | EvExec _ (ExecOk _) => false
                     | _ => true
                     end) tr.

(** Whether code unit [c] occurs in [s]. *)
Fixpoint has_char (c : ascii) (s : string) : bool :=
  match s with
  | EmptyString => false
  | String d s' => Ascii.eqb c d || has_char c s'
  end.

(** The text a listing reports as the pid: on Windows the second field of
    its first record (the text of [undefined] when there is none), elsewhere
    its first pid line. *)
Definition reported_pid (platform stdout : string) : option string :=
  if String.eqb platform "win32"
  then Some (nth 1 (split "," (remove_all dquote
                                  (hd "" (split CRLF (trim stdout)))))
                 undefined_text)
  else hd_error (pid_lines stdout).

(** No pid text reported in the trace has a minus sign in it. *)
Definition pids_unsigned (platform : string) (tr : list Event) : Prop :=
  forall cmd stdout text,
    In (EvExec cmd (ExecOk stdout)) tr ->
    reported_pid platform stdout = Some text ->
    has_char "-" text = false.

(** Whether a signal command ([killall ... || pkill ...] or [kill ...]) of
    the trace succeeded. *)
Definition signals_sent (tr : list Event) : bool :=
  existsb (fun ev => match ev with
                     | EvExec cmd (ExecOk _) => prefix "kill" cmd
                     | _ => false
                     end) tr.

(** Whether the re-probe of the settle check reported the process running. *)
Definition still_running (o : Outcome ProcessInfo) : bool :=
  match o with
  | Fulfilled info => running info
  | _ => false
  end.

(** The trace of an invocation of [killProcessUnix] up to the listing of the
    pids: [r1] is the result of the broad kill, [r2] that of the listing. *)
Definition phase_head (name : string) (force : bool) (r1 r2 : ExecResult)
  : list Event :=
  EvLog (LogKilling name force)
    :: EvExec (broad_cmd (signal_of force) name) r1
    :: (if succeeded r1 then [EvLog (LogSent name)] else [])
    ++ [EvExec (pgrep_f name) r2].

Definition found_log (name : string) (pids : list string) : list Event :=
  match pids with
  | [] => []
  | _ :: _ => [EvLog (LogFound name pids)]
  end.

(** [Leaves P t]: however the commands answer, task [t] ends in a value
    satisfying [P]. *)
Inductive Leaves {A : Type} (P : A -> Prop) : Task A -> Prop :=
| Leaves_Ret (a : A) : P a -> Leaves P (Ret a)
| Leaves_Exec (cmd : string) (k : ExecResult -> Task A) :
    (forall r, Leaves P (k r)) -> Leaves P (Exec cmd k)
| Leaves_Sleep (ms : Z) (k : Task A) : Leaves P k -> Leaves P (Sleep ms k)
| Leaves_Log (m : LogMsg) (k : Task A) : Leaves P k -> Leaves P (Log m k).

Definition settled {A : Type} (o : Outcome A) : Prop :=
  match o with
  | Pending => False
  | _ => True
  end.

(** The record a probe of [nm] fulfils with. *)
Definition info_of (nm : string) (o : Outcome ProcessInfo) : Prop :=
  match o with
  | Fulfilled info => name info = nm
  | _ => False
  end.

Section PromiseAllInvariants.

Context {World : Type} `{System World} {A : Type}.

(** The recorded rejection is the rejection of one of the calls, and none
    is recorded only while no call has rejected. *)
Definition rejection_recorded (s : @ParState World A) : Prop :=
  (forall e, first_rejection s = Some e ->
             exists i, pool s i = Ret (Rejected e))
  /\ (first_rejection s = None ->
      forall i e, pool s i <> Ret (Rejected e)).

(** Call [i] of the pool can only end in a state [P i] allows. *)
Definition pool_leaves (P : Slot -> Outcome A -> Prop) (p : @Pool A) : Prop :=
  forall i, Leaves (P i) (p i).

Definition returned (t : Async A) : Prop := exists o, t = Ret o.

End PromiseAllInvariants.

(** One record of a [tasklist /FO CSV /NH] listing. *)
Definition tasklist_record : string :=
  quoted "proc.exe" ++ "," ++ quoted "4242" ++ "," ++ quoted "Services" ++ ","
    ++ quoted "0" ++ "," ++ quoted "12,345 K" ++ CRLF.

(* ================================================================== *)
(** ** Further readings of a trace *)

(** A command that asks for a process to be stopped: [killall ... || pkill
    ...], [kill ...] or [taskkill ...]. *)
Definition is_termination (cmd : string) : bool :=
  prefix "kill" cmd || prefix "taskkill " cmd.

(** Whether a command of the trace that asks for a process to be stopped
    succeeded. *)
Definition terminations_sent (tr : list Event) : bool :=
  existsb (fun ev => match ev with
                     | EvExec cmd (ExecOk _) => is_termination cmd
                     | _ => false
                     end) tr.

(** The delays of a trace, in milliseconds. *)
Fixpoint sleeps (tr : list Event) : list Z :=
  match tr with
  | [] => []
  | EvSleep ms :: rest => ms :: sleeps rest
  | _ :: rest => sleeps rest
  end.

(** The commands the probe of [name] may run on [platform]. *)
Definition probe_commands (platform name : string) : list string :=
  if String.eqb platform "win32" then [tasklist_cmd name] else patterns name.

(** [Path t es a]: for some answers of the commands, task [t] emits the
    events [es] and ends in [a]. *)
Inductive Path {A : Type} : Task A -> list Event -> A -> Prop :=
| Path_Ret (a : A) : Path (Ret a) [] a
| Path_Exec (cmd : string) (k : ExecResult -> Task A) (r : ExecResult)
            (es : list Event) (a : A) :
    Path (k r) es a -> Path (Exec cmd k) (EvExec cmd r :: es) a
| Path_Sleep (ms : Z) (k : Task A) (es : list Event) (a : A) :
    Path k es a -> Path (Sleep ms k) (EvSleep ms :: es) a
| Path_Log (m : LogMsg) (k : Task A) (es : list Event) (a : A) :
    Path k es a -> Path (Log m k) (EvLog m :: es) a.

(** The answers the commands of a trace got, in order. *)
Fixpoint answers_of (tr : list Event) : list ExecResult :=
  match tr with
  | [] => []
  | EvExec _ r :: rest => r :: answers_of rest
  | _ :: rest => answers_of rest
  end.

(** A system that replays a list of answers, one per command, whatever the
    command is. *)
Module Replay.

Definition out_of_answers : Error := mkError None "no answer left".

#[export] Instance system : System (list ExecResult) := {
  os_exec := fun _ answers =>
    match answers with
    | [] => (ExecErr out_of_answers, [])
    | r :: rest => (r, rest)
    end;
  os_sleep := fun _ answers => answers
}.

End Replay.
Import Replay.

(** [projected p s E]: in state [s] of the interleaving of pool [p], call
    [i] has emitted the events [E i], which with any path of what is left
    of it make a path of [p i]; the joint trace rearranges the three. *)
Definition projected {World A : Type} (p : @Pool A) (s : @ParState World A)
           (E : Slot -> list Event) : Prop :=
  Permutation (events s) (E Slot0 ++ E Slot1 ++ E Slot2)
  /\ forall i es a, Path (pool s i) es a -> Path (p i) (E i ++ es) a.

(* ================================================================== *)
(** ** DUB project detection (checkDubProject and its helpers) *)

(** [s.endsWith(suffix)]: some tail of [s] is [suffix]. *)
Fixpoint endsWith (suffix s : string) : bool :=
  String.eqb s suffix
  || match s with
     | EmptyString => false
     | String _ s' => endsWith suffix s'
     end.

Definition isDubConfigFile (fileName : string) : bool :=
  String.eqb fileName "dub.json" || String.eqb fileName "dub.sdl".

Definition isDSourceFile (fileName : string) : bool :=
  endsWith ".d" fileName || endsWith ".di" fileName.

Record DubProjectCheck : Type := mkDubProjectCheck {
  hasWorkspace : bool;
  hasDubJson : bool;
  hasDubSdl : bool;
  hasSourceFiles : bool;
  isDubProject : bool;
  dubConfigPath : option string
}.

(** The file system as [checkDubProject] sees it: [fs_access path] is
    whether [fs.access(path, F_OK)] called back with [err === null];
    [find_files folder] is the number of files [findFiles] gave for the
    pattern of D sources under [folder] (at most one is asked for), or
    [None] when its promise rejected.  Paths are taken to be ones
    [fs.access] accepts. *)
Class FileSystem (World : Type) : Type := {
  fs_access : string -> World -> bool * World;
  find_files : string -> World -> option nat * World
}.

Inductive FsEvent : Type :=
| EvAccess (path : string) (found : bool)
| EvFind (folder : string) (found : option bool).

Record FsRun (A World : Type) : Type := mkFsRun {
  fs_trace : list FsEvent;
  fs_value : A;
  fs_final : World
}.
Arguments mkFsRun {A World} fs_trace fs_value fs_final.
Arguments fs_trace {A World} f.
Arguments fs_value {A World} f.
Arguments fs_final {A World} f.

Section DubProject.

Context {World : Type} `{FileSystem World}.

(** [path.join] of Node, a function of the platform's path module. *)
Variable path_join : string -> string -> string.

(** [fileExists]: the promise always fulfils. *)
Definition fileExists (filePath : string) (w : World) : bool * World :=
  fs_access filePath w.

(** [hasDSourceFiles]: the promise is resolved from the [then] of
    [findFiles]; when [findFiles] rejects nothing resolves it ([None]). *)
Definition hasDSourceFiles (workspaceFolder : string) (w : World)
  : option bool * World :=
  let (files, w') := find_files workspaceFolder w in
  (option_map (fun n => (0 <? n)%nat) files, w').

(** [checkDubProject], given [vscode.workspace.workspaceFolders] (the
    [fsPath] of each folder, [None] for [undefined]). *)
Definition checkDubProject (workspaceFolders : option (list string)) (w : World)
  : FsRun (Outcome DubProjectCheck) World :=
  match workspaceFolders with
  | None | Some [] =>
      mkFsRun [] (Fulfilled (mkDubProjectCheck false false false false false None))
              w
  | Some (workspaceFolder :: _) =>
      let dubJsonPath := path_join workspaceFolder "dub.json" in
      let (hasDubJson, w1) := fileExists dubJsonPath w in
      let dubSdlPath := path_join workspaceFolder "dub.sdl" in
      let (hasDubSdl, w2) := fileExists dubSdlPath w1 in
      let (sources, w3) := hasDSourceFiles workspaceFolder w2 in
      let tr := [EvAccess dubJsonPath hasDubJson; EvAccess dubSdlPath hasDubSdl;
                 EvFind workspaceFolder sources] in
      match sources with
      | None => mkFsRun tr Pending w3
      | Some hasSourceFiles =>
          mkFsRun tr
            (Fulfilled
               (mkDubProjectCheck true hasDubJson hasDubSdl hasSourceFiles
                  (hasDubJson || hasDubSdl)
                  (if hasDubJson then Some dubJsonPath
                   else if hasDubSdl then Some dubSdlPath
                   else None)))
            w3
      end
  end.

End DubProject.

(** A file system given by the paths that exist and what [findFiles]
    answers. *)
Module Disk.

Definition Disk : Type := list string * option nat.

#[export] Instance file_system : FileSystem Disk := {
  fs_access := fun path d => (existsb (String.eqb path) (fst d), d);
  find_files := fun _ d => (snd d, d)
}.

Definition join (folder file : string) : string := folder ++ "/" ++ file.

End Disk.
Import Disk.

(* ================================================================== *)
(** ** Status bar visibility (statusbar.ts) *)

(** [String.prototype.toLowerCase] on code units below 256. *)
Definition lower_unit (c : ascii) : ascii :=
  let n := nat_of_ascii c in
  if ((65 <=? n) && (n <=? 90)
      || (192 <=? n) && (n <=? 222) && negb (n =? 215))%nat
  then ascii_of_nat (n + 32)
  else c.

Fixpoint toLowerCase (s : string) : string :=
  match s with
  | EmptyString => EmptyString
  | String c s' => String (lower_unit c) (toLowerCase s')
  end.

Record TextDocument : Type := mkTextDocument {
  languageId : string;
  fileName : string;
  uri : string
}.

(** The argument [editor?: vscode.TextEditor | null]; an editor is read
    through its document only. *)
Inductive EditorArg : Type :=
| EditorUndefined
| EditorNull
| Editor (document : TextDocument).

(** What [checkStatusbarVisibility] reads of the window:
    [vscode.workspace.workspaceFolders], [vscode.window.activeTextEditor],
    and [config(scope).get(key, false)] as a truth value, with scope [None]
    for [config(null)].  [config] is defined in extension.ts and is taken as
    given. *)
Record Window : Type := mkWindow {
  workspaceFolders : option (list string);
  activeTextEditor : option TextDocument;
  setting : option string -> string -> bool
}.

Section Statusbar.

(** [path.basename] of Node, a function of the platform's path module. *)
Variable basename : string -> string.

Definition isStatusbarRelevantDocument (document : TextDocument) : bool :=
  let language := languageId document in
  if String.eqb language "d" || String.eqb language "di"
     || String.eqb language "dml" || String.eqb language "diet"
  then true
  else
    let filename := basename (toLowerCase (fileName document)) in
    if String.eqb filename "dub.json" || String.eqb filename "dub.sdl"
    then true
    else false.

(** [workspaceFolders !== undefined && workspaceFolders.length > 0] *)
Definition hasDubProject (win : Window) : bool :=
  match workspaceFolders win with
  | Some (_ :: _) => true
  | _ => false
  end.

(** The editor the check looks at: none for [null], the active one when
    the argument is left out. *)
Definition editor_in_view (win : Window) (editor : EditorArg)
  : option TextDocument :=
  match editor with
  | EditorNull => None
  | EditorUndefined => activeTextEditor win
  | Editor document => Some document
  end.

Definition checkStatusbarVisibility (win : Window) (overrideConfig : string)
           (editor : EditorArg) : bool :=
  if setting win None overrideConfig then true
  else
    match editor with
    | EditorNull => hasDubProject win
    | _ =>
        let editor' := match editor with
                       | Editor document => Some document
                       | _ => activeTextEditor win
                       end in
        match editor' with
        | Some document =>
            if setting win (Some (uri document)) overrideConfig
               || isStatusbarRelevantDocument document
            then true
            else hasDubProject win
        | None => hasDubProject win
        end
    end.

End Statusbar.

(* ================================================================== *)
(** ** StartupProgress (statusbar.ts)

    Numbers are floating point here ([step / (max || 1)], [toFixed]); they
    are left abstract: [falsy] says which are falsy and [percent step max]
    is the text [formatPercent(step / max)].  A progress session of the
    window is named by its number; [vscode.window.withProgress] calls its
    task before it returns, so the fields [progress], [resolve] and [reject]
    are set by the time [startGlobal] is through. *)

Inductive UiEvent : Type :=
| WithProgress (session : nat)
| Resolved (session : nat)
| Report (session : nat) (message : string).

Record StartupProgress : Type := mkStartupProgress {
  startedGlobal : bool;
  workspace : option string;
  progress : option nat;
  resolve : option nat;
  reject : option nat;
  (** the sessions opened so far and what the window was asked to do *)
  opened : nat;
  ui : list UiEvent
}.

Definition new_StartupProgress : StartupProgress :=
  mkStartupProgress false None None None None 0 [].

Section Startup.

Variable num : Type.
Variables (zero one : num) (falsy : num -> bool) (percent : num -> num -> string).

Definition startGlobal (sp : StartupProgress) : StartupProgress :=
  if startedGlobal sp then sp
  else
    let session := opened sp in
    mkStartupProgress true (workspace sp) (Some session) (Some session)
                      (Some session) (S session)
                      (ui sp ++ [WithProgress session]).

Definition finishGlobal (sp : StartupProgress) : StartupProgress :=
  if negb (startedGlobal sp) then sp
  else
    mkStartupProgress false (workspace sp) None None None (opened sp)
                      (ui sp ++ match resolve sp with
                                | Some session => [Resolved session]
                                | None => []
                                end).

Definition globalStep (step max : num) (title msg : string)
           (sp : StartupProgress) : StartupProgress :=
  match startedGlobal sp, progress sp with
  | true, Some session =>
      mkStartupProgress (startedGlobal sp) (workspace sp) (progress sp)
                        (resolve sp) (reject sp) (opened sp)
                        (ui sp ++ [Report session
                                     (title ++ " ("
                                        ++ percent step (if falsy max then one
                                                         else max)
                                        ++ "): " ++ msg)])
  | _, _ => sp
  end.

Definition setWorkspace (name : string) (sp : StartupProgress)
  : StartupProgress :=
  globalStep zero one ("workspace " ++ name) "starting up..."
    (mkStartupProgress (startedGlobal sp) (Some name) (progress sp)
                       (resolve sp) (reject sp) (opened sp) (ui sp)).

(** [`workspace ` + this.workspace]: an unset workspace reads [undefined]. *)
Definition workspace_text (sp : StartupProgress) : string :=
  match workspace sp with
  | Some name => name
  | None => "undefined"
  end.

Definition workspaceStep (step max : num) (msg : string)
           (sp : StartupProgress) : StartupProgress :=
  globalStep step max ("workspace " ++ workspace_text sp) msg sp.

(** The calls a user of the class can make. *)
Inductive Call : Type :=
| CallStartGlobal
| CallFinishGlobal
| CallGlobalStep (step max : num) (title msg : string)
| CallSetWorkspace (name : string)
| CallWorkspaceStep (step max : num) (msg : string).

Definition call (sp : StartupProgress) (c : Call) : StartupProgress :=
  match c with
  | CallStartGlobal => startGlobal sp
  | CallFinishGlobal => finishGlobal sp
  | CallGlobalStep step max title msg => globalStep step max title msg sp
  | CallSetWorkspace name => setWorkspace name sp
  | CallWorkspaceStep step max msg => workspaceStep step max msg sp
  end.

Definition calls (cs : list Call) : StartupProgress :=
  fold_left call cs new_StartupProgress.

End Startup.

(** Reading the window's side of the protocol: sessions are opened in
    order, one at a time; a report goes to the open session; a session is
    resolved while open.  [protocol evs (current, next)] is the state after
    [evs], or [None] when an event is out of place. *)
Fixpoint protocol (evs : list UiEvent) (st : option nat * nat)
  : option (option nat * nat) :=
  match evs with
  | [] => Some st
  | WithProgress session :: rest =>
      match fst st with
      | None =>
          if (session =? snd st)%nat then protocol rest (Some session, S (snd st))
          else None
      | Some _ => None
      end
  | Resolved session :: rest =>
      match fst st with
      | Some current =>
          if (session =? current)%nat then protocol rest (None, snd st)
          else None
      | None => None
      end
  | Report session _ :: rest =>
      match fst st with
      | Some current =>
          if (session =? current)%nat then protocol rest st else None
      | None => None
      end
  end.

(** The window has seen a well-formed conversation and the fields agree
    with it. *)
Definition well_formed (sp : StartupProgress) : Prop :=
  protocol (ui sp) (None, 0%nat) = Some (progress sp, opened sp)
  /\ progress sp = (if startedGlobal sp then Some (opened sp - 1)%nat else None)
  /\ resolve sp = progress sp
  /\ reject sp = progress sp
  /\ (startedGlobal sp = true -> (0 < opened sp)%nat).

(** What [tasklist] prints when no task matches the filter. *)
Definition tasklist_notice : string :=
  "INFO: No tasks are running which match the specified criteria.".

(* ================================================================== *)
(** * Properties *)

(** ** Strings *)

Lemma prefix_app (a b : string) : prefix a (a ++ b) = true.
Proof.
  induction a as [|c a IH]; simpl.
  - now destruct b.
  - destruct (ascii_dec c c); [exact IH | congruence].
Qed.

Lemma includes_prefix (x s : string) : prefix x s = true -> includes x s = true.
Proof. intros Hp. destruct s; simpl in *; now rewrite Hp. Qed.

Lemma includes_app_r (x a b : string) :
  includes x b = true -> includes x (a ++ b) = true.
Proof.
  intros Hb. induction a as [|c a IH]; [exact Hb|].
  cbn [append includes]. rewrite IH. apply orb_true_r.
Qed.

Lemma includes_here (x b : string) : includes x (x ++ b) = true.
Proof. apply includes_prefix, prefix_app. Qed.

Lemma includes_refl (x : string) : includes x x = true.
Proof.
  apply includes_prefix. induction x as [|c x IH]; simpl; [reflexivity|].
  destruct (ascii_dec c c); [exact IH | congruence].
Qed.

Lemma split_go_cons (sep : string) (skip : nat) (cur : list ascii) (s : string) :
  exists piece rest, split_go sep skip cur s = piece :: rest.
Proof.
  revert skip cur; induction s as [|c s IH]; intros skip cur; simpl.
  - eauto.
  - destruct skip as [|n]; [|apply IH].
    match goal with |- context [if ?b then _ else _] => destruct b end;
      [eauto | apply IH].
Qed.

Lemma split_cons (sep s : string) :
  exists piece rest, split sep s = piece :: rest.
Proof. apply split_go_cons. Qed.

(** ** formatProcessStatus *)

(** C9. [formatProcessStatus] is a total function of its argument alone.  Its
    result starts with the glyph of the state ([$(check)] when running,
    [$(x)] when not, two different glyphs), contains the name and the label
    ([running] or [stoped]); when running it ends with the pid, and when not
    running it is the glyph, the name and the label and nothing else, so no
    pid.  For [{x, 7, true}] it is [$(check) x: running (PID: 7)], which
    contains [7] and [running]; for [{x, -1, false}] it is [$(x) x: stoped],
    which contains neither [-1] nor [PID]. *)
Theorem formatProcessStatus_spec :
  (forall info : ProcessInfo,
      let s := formatProcessStatus info in
      includes (name info) s = true
      /\ (if running info
          then prefix "$(check) " s = true
               /\ includes "running" s = true
               /\ s = "$(check) " ++ name info ++ ": running"
                        ++ " (PID: " ++ toString (pid info) ++ ")"
          else prefix "$(x) " s = true
               /\ includes "stoped" s = true
               /\ s = "$(x) " ++ name info ++ ": stoped"))
  /\ "$(check)" <> "$(x)"
  /\ (let s := formatProcessStatus (mkProcessInfo "x" (Int 7) true None) in
      s = "$(check) x: running (PID: 7)"
      /\ includes "7" s = true /\ includes "running" s = true)
  /\ (let s := formatProcessStatus (not_running "x") in
      s = "$(x) x: stoped"
      /\ includes "-1" s = false /\ includes "PID" s = false
      /\ forall p : number,
          formatProcessStatus (mkProcessInfo "x" p false None) = s).
Proof.
  split; [|split; [discriminate | split; [now vm_compute | now vm_compute]]].
  intros [nm p r c]; cbv zeta; unfold formatProcessStatus.
  cbn [name pid running command]. destruct r.
  - split; [|split; [|split]].
    + apply (includes_app_r _ "$(check) "), includes_here.
    + apply (prefix_app "$(check) ").
    + apply (includes_app_r _ "$(check) ").
      apply (includes_app_r _ nm).
      apply (includes_app_r _ ": "), includes_here.
    + reflexivity.
  - split; [|split; [|split]].
    + apply (includes_app_r _ "$(x) "), includes_here.
    + apply (prefix_app "$(x) ").
    + apply (includes_app_r _ "$(x) ").
      apply (includes_app_r _ nm).
      apply (includes_app_r _ ": "), includes_refl.
    + reflexivity.
Qed.

Lemma has_char_trimStart (c : ascii) (s : string) :
  has_char c (trimStart s) = true -> has_char c s = true.
Proof.
  induction s as [|d s IH]; cbn [trimStart]; [auto|].
  destruct (is_space d); [|auto].
  intros Hc. cbn [has_char]. rewrite (IH Hc). apply orb_true_r.
Qed.

Lemma digits_nonneg (s : string) :
  forall (seen : bool) (acc z : Z),
    0 <= acc -> digits s seen acc = Some z -> 0 <= z.
Proof.
  induction s as [|c s IH]; intros seen acc z Hacc; cbn [digits].
  - destruct seen; [intros [= <-]; lia | discriminate].
  - unfold digit.
    destruct ((48 <=? nat_of_ascii c)%nat && (nat_of_ascii c <=? 57)%nat) eqn:E.
    + apply IH. apply andb_true_iff in E as [E _].
      apply Nat.leb_le in E. lia.
    + destruct seen; [intros [= <-]; lia | discriminate].
Qed.

(** [parseInt] reads a negative number only from a text with a minus sign. *)
Lemma parseInt_negative (s : string) (z : Z) :
  parseInt s = Int z -> z < 0 -> has_char "-" s = true.
Proof.
  unfold parseInt. intros Hp Hz. apply has_char_trimStart.
  destruct (trimStart s) as [|c rest]; [discriminate|].
  cbn [has_char]. rewrite (Ascii.eqb_sym "-" c).
  destruct (Ascii.eqb c "-"); [reflexivity|].
  exfalso. destruct (Ascii.eqb c "+").
  - destruct (digits rest false 0) eqn:E; [|discriminate].
    injection Hp as <-. apply digits_nonneg in E; lia.
  - destruct (digits (String c rest) false 0) eqn:E; [|discriminate].
    injection Hp as <-. apply digits_nonneg in E; lia.
Qed.

(** ** What the probe reads from a listing *)

Lemma tasklist_info_name (nm stdout : string) :
  name (tasklist_info nm stdout) = nm.
Proof.
  unfold tasklist_info. destruct (split CRLF (trim stdout)) as [|line0 ?];
    [reflexivity|].
  now destruct (includes nm line0).
Qed.

Lemma tasklist_info_stopped (name stdout : string) :
  running (tasklist_info name stdout) = false ->
  tasklist_info name stdout = not_running name.
Proof.
  unfold tasklist_info. destruct (split CRLF (trim stdout)) as [|line0 ?];
    [reflexivity|].
  now destruct (includes name line0).
Qed.

Lemma tasklist_info_command (name stdout : string) :
  match command (tasklist_info name stdout) with
  | Some _ => running (tasklist_info name stdout) = true
  | None => running (tasklist_info name stdout) = false
  end.
Proof.
  unfold tasklist_info. destruct (split CRLF (trim stdout)) as [|line0 ?];
    [reflexivity|].
  destruct (includes name line0); [|reflexivity].
  cbn [command running].
  now destruct (split_cons "," (remove_all dquote line0)) as (p0 & ps & ->).
Qed.

Lemma tasklist_info_pid (nm stdout : string) :
  running (tasklist_info nm stdout) = true ->
  exists text,
    reported_pid "win32" stdout = Some text
    /\ pid (tasklist_info nm stdout) = parseInt text.
Proof.
  unfold tasklist_info, reported_pid. cbn [String.eqb Ascii.eqb].
  destruct (split CRLF (trim stdout)) as [|line0 rest]; [discriminate|].
  destruct (includes nm line0); [|discriminate].
  intros _. eexists. split; reflexivity.
Qed.

Lemma pgrep_info_some (nm stdout : string) (info : ProcessInfo) :
  pgrep_info nm stdout = Some info ->
  name info = nm /\ running info = true /\ command info = None
  /\ exists pid0 rest, pid_lines stdout = pid0 :: rest
                       /\ pid info = parseInt pid0.
Proof.
  unfold pgrep_info. destruct (pid_lines stdout) as [|pid0 rest];
    [discriminate|].
  intros [= <-]. cbn [name running command pid].
  repeat split. now exists pid0, rest.
Qed.

(** ** Runs *)

Section Runs.

Context {World : Type} `{System World}.

Lemma run_bind {A B : Type} (t : Task A) (f : A -> Task B) (w : World) :
  run (bind t f) w =
    mkRun (trace (run t w) ++ trace (run (f (value (run t w))) (final (run t w))))
          (value (run (f (value (run t w))) (final (run t w))))
          (final (run (f (value (run t w))) (final (run t w)))).
Proof.
  revert w; induction t as [a | cmd k IH | ms k IH | m k IH]; intros w;
    cbn [bind run].
  - cbn [trace value final app]. now destruct (run (f a) w).
  - destruct (os_exec cmd w) as [r w']. rewrite IH. reflexivity.
  - rewrite IH. reflexivity.
  - rewrite IH. reflexivity.
Qed.

Lemma run_checkProcessWindows (name : string) (w : World) :
  run (checkProcessWindows name) w =
    mkRun [EvExec (tasklist_cmd name) (fst (os_exec (tasklist_cmd name) w))]
          (Fulfilled
             match fst (os_exec (tasklist_cmd name) w) with
             | ExecOk stdout => tasklist_info name stdout
             | ExecErr _ => not_running name
             end)
          (snd (os_exec (tasklist_cmd name) w)).
Proof.
  unfold checkProcessWindows, try_catch, abind, exec. cbn [bind run].
  destruct (os_exec (tasklist_cmd name) w) as [[stdout | e] w'];
    reflexivity.
Qed.

Lemma run_checkProcessUnix_loop (name pattern : string) (rest : list string)
      (w : World) :
  run (checkProcessUnix_loop name (pattern :: rest)) w =
    match found name (fst (os_exec pattern w)) with
    | Some info =>
        mkRun [EvExec pattern (fst (os_exec pattern w))] (Fulfilled info)
              (snd (os_exec pattern w))
    | None =>
        after (EvExec pattern (fst (os_exec pattern w)))
              (run (checkProcessUnix_loop name rest) (snd (os_exec pattern w)))
    end.
Proof.
  cbn [checkProcessUnix_loop]. unfold try_catch, abind, exec.
  cbn [bind run].
  destruct (os_exec pattern w) as [[stdout | e] w']; cbn [fst snd found].
  - cbn [aret bind]. destruct (pgrep_info name stdout); reflexivity.
  - reflexivity.
Qed.

Lemma run_try_catch_fulfilled {A : Type} (t : Async A) (h : Error -> Async A)
      (w : World) (a : A) :
  value (run t w) = Fulfilled a -> run (try_catch t h) w = run t w.
Proof.
  intros Hv. unfold try_catch. rewrite run_bind, Hv. cbn [run trace].
  rewrite app_nil_r. destruct (run t w); cbn in *. now subst.
Qed.

Lemma found_yield (nm : string) (r : ExecResult) :
  found nm r =
    match yield r with
    | pid0 :: _ => Some (mkProcessInfo nm (parseInt pid0) true None)
    | [] => None
    end.
Proof. destruct r as [stdout | e]; reflexivity. Qed.

(** The loop of the probe always fulfils, with a record of the queried
    name and no command text; a record that is not running is the
    collapsed one, and the pid of a running one is read from the first pid
    line of a listing that succeeded. *)
Lemma checkProcessUnix_loop_sound (nm : string) (pats : list string) :
  forall w : World,
  exists info,
    value (run (checkProcessUnix_loop nm pats) w) = Fulfilled info
    /\ name info = nm
    /\ command info = None
    /\ (running info = false -> info = not_running nm)
    /\ (all_failed (trace (run (checkProcessUnix_loop nm pats) w)) = true ->
        info = not_running nm)
    /\ (running info = true ->
        exists cmd stdout text,
          In (EvExec cmd (ExecOk stdout))
             (trace (run (checkProcessUnix_loop nm pats) w))
          /\ hd_error (pid_lines stdout) = Some text
          /\ pid info = parseInt text).
Proof.
  induction pats as [|pattern rest IH]; intros w.
  - exists (not_running nm). cbn. repeat split; auto; discriminate.
  - rewrite run_checkProcessUnix_loop.
    destruct (os_exec pattern w) as [r w'] eqn:E; cbn [fst snd].
    destruct (found nm r) as [info|] eqn:Ef.
    + destruct r as [stdout | e]; [|discriminate]. cbn [found] in Ef.
      destruct (pgrep_info_some _ _ _ Ef)
        as (Hn & Hr & Hc & pid0 & more & El & Hp).
      exists info. cbn [value trace]. repeat split; auto.
      * congruence.
      * discriminate.
      * intros _. exists pattern, stdout, pid0.
        split; [now left|]. split; [now rewrite El | exact Hp].
    + destruct (IH w') as (info & Hv & Hn & Hc & Hs & Hf & Hm).
      exists info. unfold after. cbn [value trace].
      repeat split; auto.
      * intros Ha. apply Hf. cbn [all_failed forallb] in Ha.
        now apply andb_true_iff in Ha.
      * intros Hr. destruct (Hm Hr) as (cmd & stdout & text & Hin & Ht & Hp).
        exists cmd, stdout, text. split; [now right | now split].
Qed.

Lemma run_checkProcessUnix (nm : string) (w : World) :
  run (checkProcessUnix nm) w = run (checkProcessUnix_loop nm (patterns nm)) w.
Proof.
  destruct (checkProcessUnix_loop_sound nm (patterns nm) w) as (info & Hv & _).
  unfold checkProcessUnix. eapply run_try_catch_fulfilled; eauto.
Qed.

(** The same for the probe as a whole, on either platform. *)
Lemma checkProcess_sound (platform nm : string) (w : World) :
  exists info,
    value (run (checkProcess platform nm) w) = Fulfilled info
    /\ name info = nm
    /\ (if String.eqb platform "win32"
        then match command info with
             | Some _ => running info = true
             | None => running info = false
             end
        else command info = None)
    /\ (running info = false -> info = not_running nm)
    /\ (all_failed (trace (run (checkProcess platform nm) w)) = true ->
        info = not_running nm)
    /\ (running info = true ->
        exists cmd stdout text,
          In (EvExec cmd (ExecOk stdout))
             (trace (run (checkProcess platform nm) w))
          /\ reported_pid platform stdout = Some text
          /\ pid info = parseInt text).
Proof.
  unfold checkProcess, reported_pid.
  destruct (String.eqb platform "win32").
  - rewrite run_checkProcessWindows. cbn [value trace].
    destruct (os_exec (tasklist_cmd nm) w) as [[stdout | e] w'];
      cbn [fst snd].
    + exists (tasklist_info nm stdout).
      split; [reflexivity|]. split; [apply tasklist_info_name|].
      split; [apply tasklist_info_command|].
      split; [apply tasklist_info_stopped|].
      split; [discriminate|].
      intros Hr. destruct (tasklist_info_pid nm stdout Hr) as (text & Ht & Hp).
      exists (tasklist_cmd nm), stdout, text.
      split; [now left | now split].
    + exists (not_running nm). cbn. repeat split; auto; discriminate.
  - rewrite run_checkProcessUnix.
    destruct (checkProcessUnix_loop_sound nm (patterns nm) w)
      as (info & Hv & Hn & Hc & Hs & Hf & Hm).
    exists info. repeat split; auto.
Qed.

End Runs.

(** ** Properties that hold however the commands answer *)

Lemma Leaves_bind {A B : Type} (Q : A -> Prop) (P : B -> Prop)
      (t : Task A) (f : A -> Task B) :
  Leaves Q t -> (forall a, Q a -> Leaves P (f a)) -> Leaves P (bind t f).
Proof.
  intros Ht Hf. induction Ht; cbn [bind]; try (constructor; auto).
  now apply Hf.
Qed.

Lemma Leaves_run {World : Type} `{System World} {A : Type} (P : A -> Prop)
      (t : Task A) :
  Leaves P t -> forall w : World, P (value (run t w)).
Proof.
  induction 1 as [a Ha | cmd k _ IH | ms k _ IH | m k _ IH]; intros w;
    cbn [run]; auto.
  - destruct (os_exec cmd w) as [r w']. apply IH.
  - apply IH.
  - apply IH.
Qed.

Lemma Leaves_checkProcess (platform nm : string) :
  Leaves (info_of nm) (checkProcess platform nm).
Proof.
  unfold checkProcess. destruct (String.eqb platform "win32").
  - unfold checkProcessWindows, try_catch, abind, exec. cbn [bind].
    constructor. intros [stdout | e]; cbn [bind aret athrow]; constructor;
      cbn [info_of]; [apply tasklist_info_name | reflexivity].
  - unfold checkProcessUnix, try_catch.
    apply (Leaves_bind (info_of nm)).
    + induction (patterns nm) as [|pattern rest IH].
      * constructor. reflexivity.
      * cbn [checkProcessUnix_loop]. unfold try_catch, abind, exec.
        cbn [bind]. constructor. intros [stdout | e]; cbn [bind aret athrow].
        -- destruct (pgrep_info nm stdout) as [info|] eqn:E; [|exact IH].
           constructor. cbn [info_of]. now apply pgrep_info_some in E.
        -- exact IH.
    + intros [info | e |] Hi; try contradiction. now constructor.
Qed.

Lemma Leaves_kill_each (signal : string) (pids : list string) :
  forall killed : bool, Leaves (fun _ => True) (kill_each signal pids killed).
Proof.
  induction pids as [|pid rest IH]; intros killed; cbn [kill_each].
  - now constructor.
  - constructor. intros [out | e]; apply IH.
Qed.

(** The [try] block never hangs, and only a graceful one asks for the
    forced retry. *)
Lemma Leaves_killProcessUnix_try (platform nm : string) (force : bool) :
  Leaves (fun c => settled (fst c)
                   /\ (fst c = Fulfilled ReturnForced -> force = false))
         (killProcessUnix_try platform nm force).
Proof.
  assert (Ht : forall killed,
             Leaves (fun c => settled (fst c)
                              /\ (fst c = Fulfilled ReturnForced -> force = false))
                    (targeted_phase platform nm force killed)).
  { intros killed. unfold targeted_phase. constructor.
    intros [stdout | e]; [|constructor; cbn; split; [exact I | discriminate]].
    apply (Leaves_bind (fun _ => True)).
    - destruct (remaining_pids stdout); [now constructor|].
      constructor. apply Leaves_kill_each.
    - intros killed' _. destruct force; cbn [negb].
      + constructor. cbn. split; [exact I | discriminate].
      + unfold settle_check. constructor.
        apply (Leaves_bind (info_of nm)); [apply Leaves_checkProcess|].
        intros [info | e |] Hi; try contradiction.
        destruct (running info); repeat constructor. }
  unfold killProcessUnix_try. constructor.
  intros [out | e]; [constructor|]; apply Ht.
Qed.

Lemma Leaves_killProcess (platform nm : string) (force : bool) :
  Leaves settled (killProcess platform nm force).
Proof.
  assert (Hf : forall fuel,
             Leaves settled (killProcessUnix_rec platform (S fuel) nm true)).
  { intros fuel. cbn [killProcessUnix_rec]. constructor.
    apply (Leaves_bind _ _ _ _ (Leaves_killProcessUnix_try platform nm true)).
    intros [[[|] | e |] killed] [Hs Hr]; cbn [fst] in *;
      try contradiction.
    - now constructor.
    - now discriminate Hr.
    - destruct (code_is 1 e); now constructor. }
  unfold killProcess. destruct (String.eqb platform "win32").
  - unfold killProcessWindows, try_catch, abind, exec. cbn [bind].
    constructor. intros [stdout | e]; cbn [bind aret athrow];
      [now constructor|].
    destruct (code_is 128 e); now constructor.
  - unfold killProcessUnix. destruct force; [apply Hf|].
    cbn [killProcessUnix_rec]. constructor.
    apply (Leaves_bind _ _ _ _ (Leaves_killProcessUnix_try platform nm false)).
    intros [[[|] | e |] killed] [Hs Hr]; cbn [fst] in *;
      try contradiction.
    + now constructor.
    + apply (Hf 0%nat).
    + destruct (code_is 1 e); now constructor.
Qed.

(** ** checkProcess *)

(** C4 (the code departs from the claim).  On either platform branch and
    whatever the commands answer, [checkProcess] fulfils, it never rejects.
    A record that is not running is [{name, pid: -1, running: false}]; that
    is the record when every command failed, and off Windows whenever no
    output has a pid line.  The pid of a running record is what [parseInt]
    reads from the pid text the listing gave, so [pid == -1] if and only if
    [running == false] as long as that text has no minus sign.

    On Windows the case that nothing matched is missed: [lines.length > 0]
    holds of every output, so the empty listing is tested by
    [lines[0].includes(name)] alone, and for the empty name the record is
    running with pid [NaN] and an empty command text.  The Unix branch gives
    [{name, pid: -1, running: false}] for the same name and empty
    listings. *)
Theorem checkProcess_no_match_defect :
  (forall (World : Type) (S : System World) (platform nm : string)
          (w : World),
      let r := run (checkProcess platform nm) w in
      exists info,
        value r = Fulfilled info
        /\ (running info = false -> pid info = Int (-1))
        /\ (running info = false \/ all_failed (trace r) = true ->
            info = mkProcessInfo nm (Int (-1)) false None)
        /\ (String.eqb platform "win32" = false ->
            (forall cmd stdout,
                In (EvExec cmd (ExecOk stdout)) (trace r) ->
                pid_lines stdout = []) ->
            info = mkProcessInfo nm (Int (-1)) false None)
        /\ (running info = true ->
            exists cmd stdout text,
              In (EvExec cmd (ExecOk stdout)) (trace r)
              /\ reported_pid platform stdout = Some text
              /\ pid info = parseInt text)
        /\ (pids_unsigned platform (trace r) ->
            (pid info = Int (-1) <-> running info = false)))
  /\ value (run (checkProcess "win32" "") [(tasklist_cmd "", ExecOk "")])
     = Fulfilled (mkProcessInfo "" NaN true (Some ""))
  /\ value (run (checkProcess "linux" "")
                [(pgrep_f "", ExecOk ""); (pgrep_x "", ExecOk "");
                 (pgrep_path "", ExecOk "")])
     = Fulfilled (mkProcessInfo "" (Int (-1)) false None).
Proof.
  split; [|split; reflexivity].
  intros World S platform nm w. cbv zeta.
  destruct (checkProcess_sound platform nm w)
    as (info & Hv & Hn & Hc & Hs & Hf & Hm).
  exists info. split; [exact Hv|]. split; [|split; [|split; [|split]]].
  - intros Hr. now rewrite (Hs Hr).
  - intros [Hr | Ha]; [now apply Hs | now apply Hf].
  - intros Hp Hno. apply Hs.
    destruct (running info) eqn:Hr; [|reflexivity].
    destruct (Hm eq_refl) as (cmd & stdout & text & Hin & Ht & _).
    unfold reported_pid in Ht. rewrite Hp, (Hno _ _ Hin) in Ht.
    discriminate.
  - exact Hm.
  - intros Hno. split.
    + intros Hp. destruct (running info) eqn:Hr; [|reflexivity].
      destruct (Hm eq_refl) as (cmd & stdout & text & Hin & Ht & Hpid).
      rewrite Hp in Hpid. symmetry in Hpid.
      apply parseInt_negative in Hpid; [|lia].
      rewrite (Hno _ _ _ Hin Ht) in Hpid. discriminate.
    + intros Hr. now rewrite (Hs Hr).
Qed.

(** C10. On either platform branch the record [checkProcess] fulfils with
    carries the queried name; on Windows it has a command text exactly when
    it is running, elsewhere it never has one. *)
Theorem checkProcess_name_and_command
        {World : Type} `{System World} (platform nm : string) (w : World) :
  exists info,
    value (run (checkProcess platform nm) w) = Fulfilled info
    /\ name info = nm
    /\ if String.eqb platform "win32"
       then match command info with
            | Some _ => running info = true
            | None => running info = false
            end
       else command info = None.
Proof.
  destruct (checkProcess_sound platform nm w) as (info & Hv & Hn & Hc & _).
  now exists info.
Qed.

(** C7. Off Windows, the probe runs [pgrep -f "name"], then
    [pgrep -x "name"], then [pgrep -f "/.*name"], each on the system the one
    before left, and stops at the first whose output has a pid line: the
    record is running with the first pid line of that output.  A command
    that fails yields nothing and the next one is tried; when all three
    yield nothing the record is not running. *)
Theorem checkProcess_unix_strategies
        {World : Type} `{System World} (platform nm : string) (w : World) :
  String.eqb platform "win32" = false ->
  let p1 := "pgrep -f " ++ quoted nm in
  let p2 := "pgrep -x " ++ quoted nm in
  let p3 := "pgrep -f " ++ quoted ("/.*" ++ nm) in
  let a1 := os_exec p1 w in
  let a2 := os_exec p2 (snd a1) in
  let a3 := os_exec p3 (snd a2) in
  let r := run (checkProcess platform nm) w in
  match yield (fst a1), yield (fst a2), yield (fst a3) with
  | pid0 :: _, _, _ =>
      commands (trace r) = [p1] /\ final r = snd a1
      /\ value r = Fulfilled (mkProcessInfo nm (parseInt pid0) true None)
  | [], pid0 :: _, _ =>
      commands (trace r) = [p1; p2] /\ final r = snd a2
      /\ value r = Fulfilled (mkProcessInfo nm (parseInt pid0) true None)
  | [], [], pid0 :: _ =>
      commands (trace r) = [p1; p2; p3] /\ final r = snd a3
      /\ value r = Fulfilled (mkProcessInfo nm (parseInt pid0) true None)
  | [], [], [] =>
      commands (trace r) = [p1; p2; p3] /\ final r = snd a3
      /\ value r = Fulfilled (mkProcessInfo nm (Int (-1)) false None)
  end.
Proof.
  intros Hp. cbv zeta. unfold checkProcess. rewrite Hp.
  rewrite run_checkProcessUnix. unfold patterns, pgrep_f, pgrep_x, pgrep_path.
  rewrite run_checkProcessUnix_loop, found_yield.
  destruct (yield (fst (os_exec _ w))) as [|pid1 ?]; [|now repeat split].
  rewrite run_checkProcessUnix_loop, found_yield.
  destruct (yield (fst (os_exec _ (snd (os_exec _ w))))) as [|pid2 ?];
    [|now repeat split].
  rewrite run_checkProcessUnix_loop, found_yield.
  destruct (yield (fst (os_exec _ (snd (os_exec _ (snd (os_exec _ w)))))))
    as [|pid3 ?]; now repeat split.
Qed.

Lemma checkProcess_unix_strategies_witness :
  let script := [("pgrep -f " ++ quoted "dcd-server", ExecOk "");
                 ("pgrep -x " ++ quoted "dcd-server",
                  ExecOk ("311" ++ LF ++ "4242" ++ LF))] in
  let r := run (checkProcess "linux" "dcd-server") script in
  commands (trace r)
  = ["pgrep -f " ++ quoted "dcd-server"; "pgrep -x " ++ quoted "dcd-server"]
  /\ final r = []
  /\ value r = Fulfilled (mkProcessInfo "dcd-server" (Int 311) true None).
Proof.
  exact (checkProcess_unix_strategies "linux" "dcd-server"
           [("pgrep -f " ++ quoted "dcd-server", ExecOk "");
            ("pgrep -x " ++ quoted "dcd-server",
             ExecOk ("311" ++ LF ++ "4242" ++ LF))] eq_refl).
Defined.

(** C8 (the code departs from the claim).  On Windows the listing
    ["proc.exe","4242","Services",...] for [proc] gives
    [{name: proc, pid: 4242, running: true}] with command text [proc.exe],
    and a [tasklist] that fails gives a record that is not running, for
    every name.  An empty result does not: [split] never gives an empty
    array, so the guard [lines.length > 0] holds of every output and the
    empty listing is tested by [lines[0].includes(name)] alone.  For the
    empty name the empty output is read as a running process with pid
    [NaN]; so is the notice that nothing matched, for a name that occurs in
    it.  The Unix branch reads empty listings as not running, also for the
    empty name. *)
Theorem checkProcess_windows_empty_result :
  value (run (checkProcess "win32" "proc")
             [(tasklist_cmd "proc", ExecOk tasklist_record)])
  = Fulfilled (mkProcessInfo "proc" (Int 4242) true (Some "proc.exe"))
  /\ (forall (World : Type) (S : System World) (nm : string) (w : World)
             (e : Error),
         fst (os_exec (tasklist_cmd nm) w) = ExecErr e ->
         value (run (checkProcess "win32" nm) w)
         = Fulfilled (mkProcessInfo nm (Int (-1)) false None))
  /\ (forall stdout : string, split CRLF (trim stdout) <> [])
  /\ value (run (checkProcess "win32" "") [(tasklist_cmd "", ExecOk "")])
     = Fulfilled (mkProcessInfo "" NaN true (Some ""))
  /\ value (run (checkProcess "win32" "tasks")
                [(tasklist_cmd "tasks", ExecOk (tasklist_notice ++ CRLF))])
     = Fulfilled (mkProcessInfo "tasks" NaN true (Some tasklist_notice))
  /\ value (run (checkProcess "linux" "")
                [(pgrep_f "", ExecOk ""); (pgrep_x "", ExecOk "");
                 (pgrep_path "", ExecOk "")])
     = Fulfilled (mkProcessInfo "" (Int (-1)) false None).
Proof.
  split; [reflexivity|]. split; [|split; [|repeat split; reflexivity]].
  - intros World S nm w e He.
    change (checkProcess "win32" nm) with (checkProcessWindows nm).
    rewrite run_checkProcessWindows. cbn [value]. now rewrite He.
  - intros stdout.
    destruct (split_cons CRLF (trim stdout)) as (record & more & ->).
    discriminate.
Qed.

(** ** killProcess *)

Lemma commands_app (a b : list Event) :
  commands (a ++ b) = (commands a ++ commands b)%list.
Proof.
  induction a as [|[cmd res | ms | m] a IH]; cbn [app commands];
    now rewrite ?IH.
Qed.

Lemma effects_app (a b : list Event) :
  effects (a ++ b) = (effects a ++ effects b)%list.
Proof. apply filter_app. Qed.

Lemma invocations_app (a b : list Event) :
  invocations (a ++ b) = (invocations a ++ invocations b)%list.
Proof.
  induction a as [|[cmd res | ms | m] a IH]; cbn [app invocations];
    try now rewrite ?IH.
  destruct m; cbn [app]; now rewrite ?IH.
Qed.

Lemma signals_sent_app (a b : list Event) :
  signals_sent (a ++ b) = signals_sent a || signals_sent b.
Proof. apply existsb_app. Qed.

Section KillRuns.

Context {World : Type} `{System World}.
Variable platform : string.

(** The targeted loop: one [kill] per pid, in order, whatever each one
    answers; [killed] ends true when it was already or one succeeded. *)
Lemma run_kill_each (signal : string) (pids : list string) :
  forall (killed : bool) (w : World),
    let r := run (kill_each signal pids killed) w in
    commands (trace r) = map (kill_cmd signal) pids
    /\ effects (trace r) = trace r
    /\ invocations (trace r) = []
    /\ value r = killed || signals_sent (trace r).
Proof.
  induction pids as [|pid rest IH]; intros killed w; cbv zeta.
  - cbn. now rewrite orb_false_r.
  - cbn [kill_each run].
    destruct (os_exec (kill_cmd signal pid) w) as [[out | e] w'];
      unfold after; cbn [trace value commands effects filter invocations map].
    + destruct (IH true w') as (Hc & He & Hi & Hv).
      fold (effects (trace (run (kill_each signal rest true) w'))).
      rewrite Hc, He, Hi, Hv. repeat split.
      cbn [signals_sent existsb]. now rewrite orb_true_r.
    + destruct (IH killed w') as (Hc & He & Hi & Hv).
      fold (effects (trace (run (kill_each signal rest killed) w'))).
      rewrite Hc, He, Hi, Hv. repeat split.
Qed.

(** The probe issues no signal and is no invocation of [killProcessUnix];
    its trace is commands only. *)
Lemma checkProcessUnix_loop_quiet (nm : string) (pats : list string) :
  Forall (fun cmd => prefix "kill" cmd = false) pats ->
  forall w : World,
    let r := run (checkProcessUnix_loop nm pats) w in
    effects (trace r) = trace r
    /\ invocations (trace r) = []
    /\ signals_sent (trace r) = false.
Proof.
  induction 1 as [|pattern rest Hk _ IH]; intros w; cbv zeta.
  - now cbn.
  - rewrite run_checkProcessUnix_loop.
    destruct (found nm (fst (os_exec pattern w))).
    + cbn [trace effects filter invocations signals_sent existsb].
      rewrite Hk. now destruct (fst (os_exec pattern w)).
    + destruct (IH (snd (os_exec pattern w))) as (He & Hi & Hs).
      unfold after.
      cbn [trace effects filter invocations signals_sent existsb].
      fold (effects (trace (run (checkProcessUnix_loop nm rest)
                                (snd (os_exec pattern w))))).
      fold (signals_sent (trace (run (checkProcessUnix_loop nm rest)
                                     (snd (os_exec pattern w))))).
      rewrite He, Hi, Hs, Hk. now destruct (fst (os_exec pattern w)).
Qed.

Lemma checkProcess_quiet (nm : string) (w : World) :
  let r := run (checkProcess platform nm) w in
  effects (trace r) = trace r
  /\ invocations (trace r) = []
  /\ signals_sent (trace r) = false.
Proof.
  cbv zeta. unfold checkProcess. destruct (String.eqb platform "win32").
  - rewrite run_checkProcessWindows.
    cbn [trace effects filter invocations signals_sent existsb].
    now destruct (fst (os_exec (tasklist_cmd nm) w)).
  - rewrite run_checkProcessUnix. apply checkProcessUnix_loop_quiet.
    repeat constructor.
Qed.

Lemma run_settle_check (nm : string) (killed : bool) (w : World) :
  let pr := run (checkProcess platform nm) (os_sleep 1000 w) in
  run (settle_check platform nm killed) w =
    mkRun (EvSleep 1000
             :: trace pr
             ++ (if still_running (value pr)
                 then [EvLog (LogStillRunning nm)] else []))
          (Fulfilled (if still_running (value pr)
                      then ReturnForced else ReturnKilled), killed)
          (final pr).
Proof.
  cbv zeta. unfold settle_check. cbn [run]. rewrite run_bind.
  destruct (checkProcess_sound platform nm (os_sleep 1000 w))
    as (info & Hv & _).
  rewrite Hv. cbn [still_running]. unfold after.
  destruct (running info); reflexivity.
Qed.

Lemma run_killProcessUnix_try (nm : string) (force : bool) (w : World) :
  let a1 := os_exec (broad_cmd (signal_of force) nm) w in
  let a2 := os_exec (pgrep_f nm) (snd a1) in
  run (killProcessUnix_try platform nm force) w =
    match fst a2 with
    | ExecErr e =>
        mkRun (tl (phase_head nm force (fst a1) (fst a2)))
              (Rejected e, succeeded (fst a1)) (snd a2)
    | ExecOk stdout =>
        let pids := remaining_pids stdout in
        let ks := run (kill_each (signal_of force) pids (succeeded (fst a1)))
                      (snd a2) in
        if force
        then mkRun (tl (phase_head nm force (fst a1) (fst a2))
                      ++ found_log nm pids ++ trace ks)
                   (Fulfilled ReturnKilled, value ks) (final ks)
        else
          let pr := run (checkProcess platform nm)
                        (os_sleep 1000 (final ks)) in
          mkRun (tl (phase_head nm force (fst a1) (fst a2))
                   ++ found_log nm pids ++ trace ks
                   ++ EvSleep 1000 :: trace pr
                   ++ (if still_running (value pr)
                       then [EvLog (LogStillRunning nm)] else []))
                (Fulfilled (if still_running (value pr)
                            then ReturnForced else ReturnKilled), value ks)
                (final pr)
    end.
Proof.
  cbv zeta. unfold killProcessUnix_try, phase_head. cbn [run tl].
  destruct (os_exec (broad_cmd (signal_of force) nm) w) as [r1 w1].
  cbn [fst snd].
  assert (Ht : forall killed,
    run (targeted_phase platform nm force killed) w1 =
      match fst (os_exec (pgrep_f nm) w1) with
      | ExecErr e =>
          mkRun [EvExec (pgrep_f nm) (fst (os_exec (pgrep_f nm) w1))]
                (Rejected e, killed) (snd (os_exec (pgrep_f nm) w1))
      | ExecOk stdout =>
          let pids := remaining_pids stdout in
          let ks := run (kill_each (signal_of force) pids killed)
                        (snd (os_exec (pgrep_f nm) w1)) in
          if force
          then mkRun (EvExec (pgrep_f nm) (fst (os_exec (pgrep_f nm) w1))
                        :: found_log nm pids ++ trace ks)
                     (Fulfilled ReturnKilled, value ks) (final ks)
          else
            let pr := run (checkProcess platform nm)
                          (os_sleep 1000 (final ks)) in
            mkRun (EvExec (pgrep_f nm) (fst (os_exec (pgrep_f nm) w1))
                     :: found_log nm pids ++ trace ks
                     ++ EvSleep 1000 :: trace pr
                     ++ (if still_running (value pr)
                         then [EvLog (LogStillRunning nm)] else []))
                  (Fulfilled (if still_running (value pr)
                              then ReturnForced else ReturnKilled), value ks)
                  (final pr)
      end).
  { intros killed. unfold targeted_phase. cbn [run].
    destruct (os_exec (pgrep_f nm) w1) as [[stdout | e] w2]; cbn [fst snd];
      [|reflexivity].
    cbv zeta. unfold after. rewrite run_bind.
    assert (Hk : run match remaining_pids stdout with
                     | [] => Ret killed
                     | _ :: _ =>
                         Log (LogFound nm (remaining_pids stdout))
                             (kill_each (signal_of force)
                                        (remaining_pids stdout) killed)
                     end w2
                 = mkRun (found_log nm (remaining_pids stdout)
                            ++ trace (run (kill_each (signal_of force)
                                             (remaining_pids stdout) killed) w2))
                         (value (run (kill_each (signal_of force)
                                        (remaining_pids stdout) killed) w2))
                         (final (run (kill_each (signal_of force)
                                        (remaining_pids stdout) killed) w2))).
    { destruct (remaining_pids stdout) as [|pid0 rest]; [reflexivity|].
      cbn [run found_log app]. unfold after. reflexivity. }
    rewrite Hk. cbn [trace value final]. destruct force; cbn [negb].
    - cbn [run trace value final]. now rewrite app_nil_r.
    - rewrite run_settle_check. cbn [trace value final].
      now rewrite <- app_assoc. }
  destruct r1 as [out | e1]; cbn [succeeded app run]; unfold after;
    rewrite Ht; destruct (fst (os_exec (pgrep_f nm) w1)); try reflexivity;
    destruct force; reflexivity.
Qed.

Lemma run_killProcessUnix_rec (fuel : nat) (nm : string) (force : bool)
      (w : World) :
  let t := run (killProcessUnix_try platform nm force) w in
  run (killProcessUnix_rec platform (S fuel) nm force) w =
    match value t with
    | (Fulfilled ReturnKilled, killed) =>
        mkRun (EvLog (LogKilling nm force) :: trace t) (Fulfilled killed)
              (final t)
    | (Fulfilled ReturnForced, _) =>
        let fr := run (killProcessUnix_rec platform fuel nm true) (final t) in
        mkRun (EvLog (LogKilling nm force) :: trace t ++ trace fr)
              (value fr) (final fr)
    | (Rejected e, killed) =>
        mkRun (EvLog (LogKilling nm force) :: trace t)
              (if code_is 1 e then Fulfilled killed else Rejected e)
              (final t)
    | (Pending, _) =>
        mkRun (EvLog (LogKilling nm force) :: trace t) Pending (final t)
    end.
Proof.
  cbv zeta. cbn [killProcessUnix_rec run]. rewrite run_bind. unfold after.
  cbn [trace value final].
  destruct (value (run (killProcessUnix_try platform nm force) w))
    as [[[|] | e |] killed]; cbn [aret athrow run trace value final];
    rewrite ?app_nil_r; try reflexivity.
  destruct (code_is 1 e); cbn [aret athrow run trace value final];
    now rewrite app_nil_r.
Qed.

(** A forced invocation, at any fuel. *)
Lemma run_forced (fuel : nat) (nm : string) (w : World) :
  let a1 := os_exec (broad_cmd "-9" nm) w in
  let a2 := os_exec (pgrep_f nm) (snd a1) in
  run (killProcessUnix_rec platform (S fuel) nm true) w =
    match fst a2 with
    | ExecErr e =>
        mkRun (phase_head nm true (fst a1) (fst a2))
              (if code_is 1 e then Fulfilled (succeeded (fst a1))
               else Rejected e)
              (snd a2)
    | ExecOk stdout =>
        let pids := remaining_pids stdout in
        let ks := run (kill_each "-9" pids (succeeded (fst a1))) (snd a2) in
        mkRun (phase_head nm true (fst a1) (fst a2)
                 ++ found_log nm pids ++ trace ks)
              (Fulfilled (value ks)) (final ks)
    end.
Proof.
  cbv zeta. rewrite run_killProcessUnix_rec, run_killProcessUnix_try.
  cbn [signal_of].
  destruct (fst (os_exec (pgrep_f nm) (snd (os_exec (broad_cmd "-9" nm) w))));
    reflexivity.
Qed.

(** A graceful invocation with fuel for one more. *)
Lemma run_graceful (fuel : nat) (nm : string) (w : World) :
  let a1 := os_exec (broad_cmd "-15" nm) w in
  let a2 := os_exec (pgrep_f nm) (snd a1) in
  run (killProcessUnix_rec platform (S fuel) nm false) w =
    match fst a2 with
    | ExecErr e =>
        mkRun (phase_head nm false (fst a1) (fst a2))
              (if code_is 1 e then Fulfilled (succeeded (fst a1))
               else Rejected e)
              (snd a2)
    | ExecOk stdout =>
        let pids := remaining_pids stdout in
        let ks := run (kill_each "-15" pids (succeeded (fst a1))) (snd a2) in
        let pr := run (checkProcess platform nm) (os_sleep 1000 (final ks)) in
        if still_running (value pr)
        then
          let fr := run (killProcessUnix_rec platform fuel nm true)
                        (final pr) in
          mkRun (phase_head nm false (fst a1) (fst a2)
                   ++ found_log nm pids ++ trace ks
                   ++ EvSleep 1000 :: trace pr
                   ++ EvLog (LogStillRunning nm) :: trace fr)
                (value fr) (final fr)
        else
          mkRun (phase_head nm false (fst a1) (fst a2)
                   ++ found_log nm pids ++ trace ks
                   ++ EvSleep 1000 :: trace pr)
                (Fulfilled (value ks)) (final pr)
    end.
Proof.
  cbv zeta. rewrite run_killProcessUnix_rec, run_killProcessUnix_try.
  cbn [signal_of].
  destruct (fst (os_exec (pgrep_f nm) (snd (os_exec (broad_cmd "-15" nm) w))))
    as [stdout | e]; [|reflexivity].
  cbv zeta. cbn [value trace final].
  destruct (still_running _); cbn [trace value final].
  - f_equal. unfold phase_head. cbn [tl app].
    repeat (rewrite <- ?app_assoc; cbn [app]). reflexivity.
  - rewrite app_nil_r. reflexivity.
Qed.

Lemma run_killProcessWindows (nm : string) (force : bool) (w : World) :
  let cmd := taskkill_cmd (if force then "/F" else "") nm in
  run (killProcessWindows nm force) w =
    mkRun [EvExec cmd (fst (os_exec cmd w))]
          match fst (os_exec cmd w) with
          | ExecOk _ => Fulfilled true
          | ExecErr e => if code_is 128 e then Fulfilled false else Rejected e
          end
          (snd (os_exec cmd w)).
Proof.
  cbv zeta. unfold killProcessWindows, try_catch, abind, exec.
  cbn [bind run].
  destruct (os_exec (taskkill_cmd (if force then "/F" else "") nm) w)
    as [[stdout | e] w']; cbn [fst snd aret athrow bind run]; unfold after;
    [reflexivity|].
  destruct (code_is 128 e); reflexivity.
Qed.

Lemma invocations_phase_head (nm : string) (force : bool)
      (r1 r2 : ExecResult) :
  invocations (phase_head nm force r1 r2) = [(nm, force)].
Proof. unfold phase_head. now destruct r1. Qed.

Lemma invocations_found_log (nm : string) (pids : list string) :
  invocations (found_log nm pids) = [].
Proof. now destruct pids. Qed.

Lemma signals_phase_head (nm : string) (force : bool) (r1 r2 : ExecResult) :
  signals_sent (phase_head nm force r1 r2) = succeeded r1.
Proof. unfold phase_head. now destruct r1, r2. Qed.

Lemma signals_found_log (nm : string) (pids : list string) :
  signals_sent (found_log nm pids) = false.
Proof. now destruct pids. Qed.

Lemma commands_phase_head (nm : string) (force : bool) (r1 r2 : ExecResult) :
  commands (phase_head nm force r1 r2)
  = [broad_cmd (signal_of force) nm; pgrep_f nm].
Proof. unfold phase_head. now destruct r1. Qed.

Lemma effects_phase_head (nm : string) (force : bool) (r1 r2 : ExecResult) :
  effects (phase_head nm force r1 r2)
  = [EvExec (broad_cmd (signal_of force) nm) r1; EvExec (pgrep_f nm) r2].
Proof. unfold phase_head. now destruct r1. Qed.

Lemma commands_found_log (nm : string) (pids : list string) :
  commands (found_log nm pids) = [].
Proof. now destruct pids. Qed.

Lemma effects_found_log (nm : string) (pids : list string) :
  effects (found_log nm pids) = [].
Proof. now destruct pids. Qed.

(** A forced invocation is the only invocation its trace records. *)
Lemma invocations_forced (fuel : nat) (nm : string) (w : World) :
  invocations (trace (run (killProcessUnix_rec platform (S fuel) nm true) w))
  = [(nm, true)].
Proof.
  rewrite run_forced.
  destruct (fst (os_exec (pgrep_f nm) (snd (os_exec (broad_cmd "-9" nm) w))))
    as [stdout | e]; cbv zeta; cbn [trace].
  - rewrite !invocations_app, invocations_phase_head, invocations_found_log.
    now destruct (run_kill_each "-9" (remaining_pids stdout)
                    (succeeded (fst (os_exec (broad_cmd "-9" nm) w)))
                    (snd (os_exec (pgrep_f nm)
                            (snd (os_exec (broad_cmd "-9" nm) w)))))
      as (_ & _ & -> & _).
  - apply invocations_phase_head.
Qed.

(** Fuel beyond the first level changes nothing for a forced invocation,
    and fuel beyond the second nothing for a graceful one. *)
Lemma forced_fuel (fuel : nat) (nm : string) (w : World) :
  run (killProcessUnix_rec platform (S fuel) nm true) w
  = run (killProcessUnix_rec platform 1 nm true) w.
Proof. now rewrite !run_forced. Qed.

Lemma killProcessUnix_rec_fuel (fuel : nat) (nm : string) (force : bool)
      (w : World) :
  run (killProcessUnix_rec platform (S (S fuel)) nm force) w
  = run (killProcessUnix platform nm force) w.
Proof.
  unfold killProcessUnix. destruct force.
  - now rewrite (forced_fuel (S fuel)), (forced_fuel 1).
  - rewrite !run_graceful.
    destruct (fst (os_exec (pgrep_f nm) (snd (os_exec (broad_cmd "-15" nm) w))));
      [|reflexivity].
    cbv zeta. now rewrite (forced_fuel fuel).
Qed.

End KillRuns.

(** C6. On Windows [killProcess] runs one command, [taskkill /IM "name.exe"]
    with [/F] put before [/IM] exactly when [force] is true.  It fulfils with
    true when the command succeeds and with false when it fails with exit
    code 128 (process not found); a failure with any other code rejects with
    that same error. *)
Theorem killProcess_windows
        {World : Type} `{System World} (nm : string) (force : bool) (w : World) :
  let cmd := if force
             then "taskkill /F /IM " ++ quoted (nm ++ ".exe")
             else "taskkill  /IM " ++ quoted (nm ++ ".exe") in
  let r := run (killProcess "win32" nm force) w in
  trace r = [EvExec cmd (fst (os_exec cmd w))]
  /\ final r = snd (os_exec cmd w)
  /\ match fst (os_exec cmd w) with
     | ExecOk _ => value r = Fulfilled true
     | ExecErr e =>
         (code e = Some 128 -> value r = Fulfilled false)
         /\ (code e <> Some 128 -> value r = Rejected e)
     end.
Proof.
  cbv zeta. change (killProcess "win32" nm force)
    with (killProcessWindows nm force).
  rewrite run_killProcessWindows. cbv zeta. cbn [trace value final].
  assert (Hc : taskkill_cmd (if force then "/F" else "") nm
               = if force
                 then "taskkill /F /IM " ++ quoted (nm ++ ".exe")
                 else "taskkill  /IM " ++ quoted (nm ++ ".exe"))
    by now destruct force.
  rewrite Hc. repeat split.
  destruct (fst (os_exec _ w)) as [stdout | e]; [reflexivity|].
  unfold code_is. destruct (code e) as [c|].
  - destruct (Z.eqb_spec c 128) as [-> | Hne]; split; congruence.
  - split; [discriminate | reflexivity].
Qed.

Lemma killProcess_windows_witness :
  value (run (killProcess "win32" "serve-d" true)
             [("taskkill /F /IM " ++ quoted "serve-d.exe",
               ExecErr (mkError (Some 128) "not found"))])
  = Fulfilled false.
Proof.
  exact (proj1 (proj2 (proj2 (killProcess_windows "serve-d" true
           [("taskkill /F /IM " ++ quoted "serve-d.exe",
             ExecErr (mkError (Some 128) "not found"))]))) eq_refl).
Defined.

(** C3. Off Windows, a forced [killProcess] is a single invocation: its trace
    records one entry into [killProcessUnix], its commands are one broad
    kill, one pid listing and the [kill -9] of the listed pids, and it runs
    the same with no recursion allowed at all.  A graceful one records
    itself alone, unless its pid listing succeeded and the re-probe after the
    delay reported the process running: then it records exactly one more
    invocation, the forced one, and its outcome is the outcome of that
    forced invocation.  Deeper recursion never happens: more fuel changes
    nothing, and the promise always settles. *)
Theorem killProcess_escalates_once
        {World : Type} `{System World} (platform nm : string) (w : World) :
  String.eqb platform "win32" = false ->
  (let a1 := os_exec (broad_cmd "-9" nm) w in
   let a2 := os_exec (pgrep_f nm) (snd a1) in
   let r := run (killProcess platform nm true) w in
   invocations (trace r) = [(nm, true)]
   /\ commands (trace r)
      = broad_cmd "-9" nm :: pgrep_f nm
          :: match fst a2 with
             | ExecOk stdout => map (kill_cmd "-9") (remaining_pids stdout)
             | ExecErr _ => []
             end
   /\ r = run (killProcessUnix_rec platform 1 nm true) w)
  /\ (let a1 := os_exec (broad_cmd "-15" nm) w in
      let a2 := os_exec (pgrep_f nm) (snd a1) in
      let r := run (killProcess platform nm false) w in
      match fst a2 with
      | ExecErr _ => invocations (trace r) = [(nm, false)]
      | ExecOk stdout =>
          let ks := run (kill_each "-15" (remaining_pids stdout)
                                   (succeeded (fst a1))) (snd a2) in
          let pr := run (checkProcess platform nm) (os_sleep 1000 (final ks)) in
          if still_running (value pr)
          then invocations (trace r) = [(nm, false); (nm, true)]
               /\ value r = value (run (killProcess platform nm true) (final pr))
          else invocations (trace r) = [(nm, false)]
               /\ value r = Fulfilled (value ks)
      end)
  /\ (forall (fuel : nat) (force : bool),
        run (killProcessUnix_rec platform (2 + fuel) nm force) w
        = run (killProcess platform nm force) w)
  /\ (forall force : bool,
        settled (value (run (killProcess platform nm force) w))).
Proof.
  intros Hp. split; [|split; [|split]];
    [| | | intros force; apply Leaves_run, Leaves_killProcess].
  all: unfold killProcess; rewrite Hp.
  - cbv zeta. unfold killProcessUnix. split; [|split].
    + apply invocations_forced.
    + rewrite run_forced.
      destruct (fst (os_exec (pgrep_f nm) (snd (os_exec (broad_cmd "-9" nm) w))))
        as [stdout | e]; cbv zeta; cbn [trace].
      * rewrite !commands_app, commands_phase_head, commands_found_log.
        now destruct (run_kill_each "-9" (remaining_pids stdout)
                        (succeeded (fst (os_exec (broad_cmd "-9" nm) w)))
                        (snd (os_exec (pgrep_f nm)
                                (snd (os_exec (broad_cmd "-9" nm) w)))))
          as (-> & _).
      * apply commands_phase_head.
    + apply forced_fuel.
  - cbv zeta. unfold killProcessUnix. rewrite run_graceful.
    destruct (fst (os_exec (pgrep_f nm) (snd (os_exec (broad_cmd "-15" nm) w))))
      as [stdout | e]; cbv zeta.
    + set (ks := run (kill_each "-15" (remaining_pids stdout) _) _).
      destruct (run_kill_each "-15" (remaining_pids stdout)
                  (succeeded (fst (os_exec (broad_cmd "-15" nm) w)))
                  (snd (os_exec (pgrep_f nm)
                          (snd (os_exec (broad_cmd "-15" nm) w)))))
        as (_ & _ & Hik & _). fold ks in Hik.
      destruct (checkProcess_quiet platform nm (os_sleep 1000 (final ks)))
        as (_ & Hip & _).
      destruct (still_running _); cbn [trace value].
      * split; [|now rewrite (forced_fuel platform 1)].
        rewrite !invocations_app, invocations_phase_head,
          invocations_found_log, Hik.
        cbn [invocations app]. rewrite invocations_app, Hip.
        cbn [invocations app]. now rewrite invocations_forced.
      * split; [|reflexivity].
        rewrite !invocations_app, invocations_phase_head,
          invocations_found_log, Hik.
        cbn [invocations app]. now rewrite Hip.
    + cbn [trace]. apply invocations_phase_head.
  - intros fuel force. apply killProcessUnix_rec_fuel.
Qed.

Lemma killProcess_escalates_once_witness :
  let script :=
    [("killall -15 serve-d 2>/dev/null || pkill -15 -f serve-d 2>/dev/null",
      ExecOk "");
     ("pgrep -f " ++ quoted "serve-d", ExecOk ("311" ++ LF));
     ("kill -15 311", ExecOk "");
     ("pgrep -f " ++ quoted "serve-d", ExecOk ("311" ++ LF));
     ("killall -9 serve-d 2>/dev/null || pkill -9 -f serve-d 2>/dev/null",
      ExecOk "");
     ("pgrep -f " ++ quoted "serve-d", ExecErr (mkError (Some 1) "no match"))] in
  invocations (trace (run (killProcess "linux" "serve-d" false) script))
  = [("serve-d", false); ("serve-d", true)]
  /\ value (run (killProcess "linux" "serve-d" false) script)
     = value (run (killProcess "linux" "serve-d" true)
                  [("killall -9 serve-d 2>/dev/null || pkill -9 -f serve-d 2>/dev/null",
                    ExecOk "");
                   ("pgrep -f " ++ quoted "serve-d",
                    ExecErr (mkError (Some 1) "no match"))]).
Proof.
  exact (proj1 (proj2 (killProcess_escalates_once "linux" "serve-d"
    [("killall -15 serve-d 2>/dev/null || pkill -15 -f serve-d 2>/dev/null",
      ExecOk "");
     ("pgrep -f " ++ quoted "serve-d", ExecOk ("311" ++ LF));
     ("kill -15 311", ExecOk "");
     ("pgrep -f " ++ quoted "serve-d", ExecOk ("311" ++ LF));
     ("killall -9 serve-d 2>/dev/null || pkill -9 -f serve-d 2>/dev/null",
      ExecOk "");
     ("pgrep -f " ++ quoted "serve-d", ExecErr (mkError (Some 1) "no match"))]
    eq_refl))).
Defined.

(** C2. Off Windows, take a graceful [killProcess] whose pid listing
    succeeded.  Leaving the console output aside, its trace is: the broad
    kill, the pid listing, one [kill -15] per listed pid in order, the
    1000 ms delay, the probe of the same name, and then, only when that probe
    reported the process running, the whole forced invocation, run on the
    system the probe left.  In that case the outcome is the forced
    invocation's, otherwise it is the flag [killed]. *)
Theorem killProcess_graceful_sequence
        {World : Type} `{System World} (platform nm stdout : string) (w : World) :
  String.eqb platform "win32" = false ->
  let broad :=
    "killall -15 " ++ nm ++ " 2>/dev/null || pkill -15 -f " ++ nm
      ++ " 2>/dev/null" in
  let listing := "pgrep -f " ++ quoted nm in
  let a1 := os_exec broad w in
  let a2 := os_exec listing (snd a1) in
  fst a2 = ExecOk stdout ->
  let pids := remaining_pids stdout in
  let ks := run (kill_each "-15" pids (succeeded (fst a1))) (snd a2) in
  let pr := run (checkProcess platform nm) (os_sleep 1000 (final ks)) in
  let fr := run (killProcess platform nm true) (final pr) in
  let r := run (killProcess platform nm false) w in
  commands (trace ks) = map (fun pid => "kill -15 " ++ pid) pids
  /\ effects (trace r)
     = (EvExec broad (fst a1) :: EvExec listing (ExecOk stdout)
          :: trace ks
          ++ EvSleep 1000 :: trace pr
          ++ (if still_running (value pr) then effects (trace fr) else []))%list
  /\ value r = (if still_running (value pr)
                then value fr else Fulfilled (value ks))
  /\ final r = (if still_running (value pr) then final fr else final pr).
Proof.
  intros Hp. cbv zeta. intros Hl. unfold killProcess. rewrite Hp.
  unfold killProcessUnix. rewrite run_graceful.
  change ("killall -15 " ++ nm ++ " 2>/dev/null || pkill -15 -f " ++ nm
            ++ " 2>/dev/null") with (broad_cmd "-15" nm) in *.
  change ("pgrep -f " ++ quoted nm) with (pgrep_f nm) in *.
  rewrite Hl. cbv zeta.
  set (a1 := os_exec (broad_cmd "-15" nm) w) in *.
  set (ks := run (kill_each "-15" (remaining_pids stdout) _) _).
  destruct (run_kill_each "-15" (remaining_pids stdout) (succeeded (fst a1))
              (snd (os_exec (pgrep_f nm) (snd a1))))
    as (Hck & Hek & _ & _). fold ks in Hck, Hek.
  destruct (checkProcess_quiet platform nm (os_sleep 1000 (final ks)))
    as (Hep & _ & _).
  split; [exact Hck|].
  destruct (still_running _); cbn [trace value final].
  - split; [|now rewrite (forced_fuel platform 1)].
    rewrite !effects_app, effects_phase_head, effects_found_log, Hek.
    cbn [app effects filter].
    fold (effects (trace (run (checkProcess platform nm)
                              (os_sleep 1000 (final ks)))
                     ++ EvLog (LogStillRunning nm)
                     :: trace (run (killProcessUnix_rec platform 1 nm true)
                                   (final (run (checkProcess platform nm)
                                               (os_sleep 1000 (final ks))))))).
    rewrite effects_app, Hep. cbn [effects filter].
    now rewrite (forced_fuel platform 1).
  - split; [|now split].
    rewrite !effects_app, effects_phase_head, effects_found_log, Hek.
    cbn [app effects filter].
    fold (effects (trace (run (checkProcess platform nm)
                              (os_sleep 1000 (final ks))))).
    now rewrite Hep, app_nil_r.
Qed.

Lemma killProcess_graceful_sequence_witness :
  let script :=
    [("killall -15 serve-d 2>/dev/null || pkill -15 -f serve-d 2>/dev/null",
      ExecOk "");
     ("pgrep -f " ++ quoted "serve-d", ExecOk ("311" ++ LF ++ "312" ++ LF));
     ("kill -15 311", ExecOk "");
     ("kill -15 312", ExecErr (mkError (Some 1) "no such process"));
     ("pgrep -f " ++ quoted "serve-d", ExecOk ("311" ++ LF));
     ("killall -9 serve-d 2>/dev/null || pkill -9 -f serve-d 2>/dev/null",
      ExecOk "");
     ("pgrep -f " ++ quoted "serve-d", ExecErr (mkError (Some 1) "no match"))] in
  commands (effects (trace (run (killProcess "linux" "serve-d" false) script)))
  = ["killall -15 serve-d 2>/dev/null || pkill -15 -f serve-d 2>/dev/null";
     "pgrep -f " ++ quoted "serve-d";
     "kill -15 311"; "kill -15 312";
     "pgrep -f " ++ quoted "serve-d";
     "killall -9 serve-d 2>/dev/null || pkill -9 -f serve-d 2>/dev/null";
     "pgrep -f " ++ quoted "serve-d"]
  /\ value (run (killProcess "linux" "serve-d" false) script) = Fulfilled true.
Proof.
  pose proof (killProcess_graceful_sequence "linux" "serve-d"
    ("311" ++ LF ++ "312" ++ LF)
    [("killall -15 serve-d 2>/dev/null || pkill -15 -f serve-d 2>/dev/null",
      ExecOk "");
     ("pgrep -f " ++ quoted "serve-d", ExecOk ("311" ++ LF ++ "312" ++ LF));
     ("kill -15 311", ExecOk "");
     ("kill -15 312", ExecErr (mkError (Some 1) "no such process"));
     ("pgrep -f " ++ quoted "serve-d", ExecOk ("311" ++ LF));
     ("killall -9 serve-d 2>/dev/null || pkill -9 -f serve-d 2>/dev/null",
      ExecOk "");
     ("pgrep -f " ++ quoted "serve-d", ExecErr (mkError (Some 1) "no match"))]
    eq_refl eq_refl) as (_ & He & Hv & _).
  cbv zeta. split.
  - rewrite He. reflexivity.
  - rewrite Hv. reflexivity.
Defined.

(** C5 (amended). Off Windows, once the pid listing succeeded every listed
    pid is sent the signal, in order, whether or not the sends before it
    failed.  An invocation that then does not escalate returns true exactly
    when the broad kill or at least one of these sends succeeded: false
    means that no send succeeded, not that nothing matched.  A graceful
    invocation that escalates returns the outcome of the forced one instead.
    When the listing fails with exit code 1 the invocation returns whether
    the broad kill succeeded; with any other failure it rejects. *)
Theorem killProcess_unix_outcome
        {World : Type} `{System World} (platform nm : string) (force : bool)
        (w : World) :
  String.eqb platform "win32" = false ->
  let signal := if force then "-9" else "-15" in
  let broad :=
    "killall " ++ signal ++ " " ++ nm ++ " 2>/dev/null || pkill " ++ signal
      ++ " -f " ++ nm ++ " 2>/dev/null" in
  let listing := "pgrep -f " ++ quoted nm in
  let a1 := os_exec broad w in
  let a2 := os_exec listing (snd a1) in
  let r := run (killProcess platform nm force) w in
  match fst a2 with
  | ExecErr e =>
      commands (trace r) = [broad; listing]
      /\ (code e = Some 1 -> value r = Fulfilled (succeeded (fst a1)))
      /\ (code e <> Some 1 -> value r = Rejected e)
  | ExecOk stdout =>
      let pids := remaining_pids stdout in
      let ks := run (kill_each signal pids (succeeded (fst a1))) (snd a2) in
      let pr := run (checkProcess platform nm) (os_sleep 1000 (final ks)) in
      commands (trace ks) = map (fun pid => "kill " ++ signal ++ " " ++ pid) pids
      /\ (exists before later, trace r = (before ++ trace ks ++ later)%list)
      /\ if negb force && still_running (value pr)
         then value r = value (run (killProcess platform nm true) (final pr))
         else value r = Fulfilled (succeeded (fst a1) || signals_sent (trace ks))
              /\ value r = Fulfilled (signals_sent (trace r))
  end.
Proof.
  intros Hp. cbv zeta. unfold killProcess. rewrite Hp. unfold killProcessUnix.
  change ("killall " ++ (if force then "-9" else "-15") ++ " " ++ nm
            ++ " 2>/dev/null || pkill " ++ (if force then "-9" else "-15")
            ++ " -f " ++ nm ++ " 2>/dev/null")
    with (broad_cmd (signal_of force) nm).
  change ("pgrep -f " ++ quoted nm) with (pgrep_f nm).
  change (if force then "-9" else "-15") with (signal_of force).
  assert (Hcode : forall e : Error,
             (code e = Some 1 -> code_is 1 e = true)
             /\ (code e <> Some 1 -> code_is 1 e = false)).
  { intros e. unfold code_is. destruct (code e) as [c|].
    - destruct (Z.eqb_spec c 1) as [-> | Hne]; split; congruence.
    - split; [discriminate | reflexivity]. }
  destruct force; cbn [signal_of negb andb].
  - rewrite run_forced.
    destruct (fst (os_exec (pgrep_f nm) (snd (os_exec (broad_cmd "-9" nm) w))))
      as [stdout | e]; cbv zeta; cbn [trace value].
    + set (a1 := os_exec (broad_cmd "-9" nm) w).
      set (ks := run (kill_each "-9" (remaining_pids stdout) _) _).
      destruct (run_kill_each "-9" (remaining_pids stdout) (succeeded (fst a1))
                  (snd (os_exec (pgrep_f nm) (snd a1))))
        as (Hck & _ & _ & Hvk). fold ks in Hck, Hvk.
      split; [exact Hck|]. split.
      * eexists _, []. rewrite app_nil_r, app_assoc. reflexivity.
      * rewrite !signals_sent_app, signals_phase_head, signals_found_log.
        cbn [orb]. now rewrite Hvk.
    + split; [apply commands_phase_head|].
      destruct (Hcode e) as (H1 & H0).
      split; intros Hc; [now rewrite (H1 Hc) | now rewrite (H0 Hc)].
  - rewrite run_graceful.
    destruct (fst (os_exec (pgrep_f nm) (snd (os_exec (broad_cmd "-15" nm) w))))
      as [stdout | e]; cbv zeta.
    + set (a1 := os_exec (broad_cmd "-15" nm) w).
      set (ks := run (kill_each "-15" (remaining_pids stdout) _) _).
      destruct (run_kill_each "-15" (remaining_pids stdout) (succeeded (fst a1))
                  (snd (os_exec (pgrep_f nm) (snd a1))))
        as (Hck & _ & _ & Hvk). fold ks in Hck, Hvk.
      destruct (checkProcess_quiet platform nm (os_sleep 1000 (final ks)))
        as (_ & _ & Hsp).
      split; [exact Hck|].
      destruct (still_running _); cbn [trace value].
      * split; [|now rewrite (forced_fuel platform 1)].
        eexists _, _. rewrite app_assoc. reflexivity.
      * split; [eexists _, _; rewrite app_assoc; reflexivity|].
        rewrite !signals_sent_app, signals_phase_head, signals_found_log.
        cbn [orb signals_sent existsb].
        fold (signals_sent (trace (run (checkProcess platform nm)
                                       (os_sleep 1000 (final ks))))).
        rewrite Hsp, orb_false_r. now rewrite Hvk.
    + cbn [trace value]. split; [apply commands_phase_head|].
      destruct (Hcode e) as (H1 & H0).
      split; intros Hc; [now rewrite (H1 Hc) | now rewrite (H0 Hc)].
Qed.

(** A forced invocation that matched pid 123 and could signal nothing
    returns false; a graceful one whose broad kill and whose [kill -15]
    succeeded returns false too when the forced retry finds nothing left;
    and one whose broad kill succeeded rejects when the listing fails with
    exit code 2. *)
Lemma killProcess_unix_outcome_counterexample :
  (let script :=
     [("pgrep -f " ++ quoted "serve-d", ExecOk ("123" ++ LF));
      ("kill -9 123", ExecErr (mkError (Some 1) "Operation not permitted"))] in
   remaining_pids ("123" ++ LF) = ["123"]
   /\ commands (trace (run (killProcess "linux" "serve-d" true) script))
      = ["killall -9 serve-d 2>/dev/null || pkill -9 -f serve-d 2>/dev/null";
         "pgrep -f " ++ quoted "serve-d"; "kill -9 123"]
   /\ value (run (killProcess "linux" "serve-d" true) script) = Fulfilled false)
  /\ (let script :=
        [("killall -15 serve-d 2>/dev/null || pkill -15 -f serve-d 2>/dev/null",
          ExecOk "");
         ("pgrep -f " ++ quoted "serve-d", ExecOk ("123" ++ LF));
         ("kill -15 123", ExecOk "");
         ("pgrep -f " ++ quoted "serve-d", ExecOk ("123" ++ LF));
         ("killall -9 serve-d 2>/dev/null || pkill -9 -f serve-d 2>/dev/null",
          ExecErr (mkError (Some 1) "no process found"));
         ("pgrep -f " ++ quoted "serve-d", ExecErr (mkError (Some 1) ""))] in
      signals_sent (trace (run (killProcess "linux" "serve-d" false) script))
      = true
      /\ value (run (killProcess "linux" "serve-d" false) script)
         = Fulfilled false)
  /\ (let script :=
        [("killall -9 serve-d 2>/dev/null || pkill -9 -f serve-d 2>/dev/null",
          ExecOk "");
         ("pgrep -f " ++ quoted "serve-d", ExecErr (mkError (Some 2) "syntax"))] in
      value (run (killProcess "linux" "serve-d" true) script)
      = Rejected (mkError (Some 2) "syntax")).
Proof. repeat split. Qed.

Lemma killProcess_unix_outcome_witness :
  let script :=
    [("pgrep -f " ++ quoted "dcd-client", ExecOk ("7" ++ LF ++ "8" ++ LF));
     ("kill -9 7", ExecErr (mkError (Some 1) "no such process"));
     ("kill -9 8", ExecOk "")] in
  commands (trace (run (kill_each "-9" ["7"; "8"] false)
                       [("kill -9 7", ExecErr (mkError (Some 1) "no such process"));
                        ("kill -9 8", ExecOk "")]))
  = ["kill -9 7"; "kill -9 8"]
  /\ value (run (killProcess "linux" "dcd-client" true) script) = Fulfilled true.
Proof.
  pose proof (killProcess_unix_outcome "linux" "dcd-client" true
    [("pgrep -f " ++ quoted "dcd-client", ExecOk ("7" ++ LF ++ "8" ++ LF));
     ("kill -9 7", ExecErr (mkError (Some 1) "no such process"));
     ("kill -9 8", ExecOk "")] eq_refl) as (Hc & _ & Hv & _).
  cbv zeta. split; [exact Hc | exact Hv].
Defined.

(** ** Promise.all *)

Lemma slot_eqb_eq (i j : Slot) : slot_eqb i j = true <-> i = j.
Proof. destruct i, j; cbn; split; congruence. Qed.

Section PromiseAllFacts.

Context {World : Type} `{System World} {A : Type}.

Lemma rejection_some (t : Async A) (e : Error) :
  rejection t = Some e <-> t = Ret (Rejected e).
Proof.
  destruct t as [[a | e' |] | cmd k | ms k | m k]; cbn; split;
    congruence.
Qed.

Lemma rejection_recorded_update (s : @ParState World A) (i : Slot) (t' : Async A)
      (w' : World) (evs : list Event) :
  rejection_recorded s ->
  (forall o, pool s i = Ret o -> t' = Ret o) ->
  rejection_recorded
    (mkParState (update i t' (pool s)) w' evs
                (or_else (first_rejection s) (rejection t'))).
Proof.
  intros [Hsome Hnone] Hkeep. split; cbn [first_rejection pool].
  - intros e He. destruct (first_rejection s) as [e0|] eqn:Ef; cbn in He.
    + injection He as <-. destruct (Hsome e0 eq_refl) as (j & Hj).
      exists j. unfold update. destruct (slot_eqb i j) eqn:Eij; [|exact Hj].
      apply slot_eqb_eq in Eij as <-. now apply Hkeep.
    + exists i. unfold update.
      replace (slot_eqb i i) with true by now destruct i.
      now apply rejection_some.
  - intros He j e. destruct (first_rejection s) as [e0|] eqn:Ef;
      cbn in He; [discriminate|].
    unfold update. destruct (slot_eqb i j); [|now apply Hnone].
    intros Ht. apply rejection_some in Ht. congruence.
Qed.

Lemma advance_recorded (s : @ParState World A) (i : Slot) :
  rejection_recorded s -> rejection_recorded (advance s i).
Proof.
  intros Hs. unfold advance.
  destruct (step (pool s i) (world s)) as [[t' w'] evs] eqn:E.
  apply rejection_recorded_update; [exact Hs|].
  intros o Ho. rewrite Ho in E. cbn in E. congruence.
Qed.

Lemma finish_recorded (s : @ParState World A) (i : Slot) :
  rejection_recorded s -> rejection_recorded (finish s i).
Proof.
  intros Hs. unfold finish.
  apply rejection_recorded_update; [exact Hs|].
  intros o Ho. now rewrite Ho.
Qed.

Lemma start_recorded (p : @Pool A) (w : World) : rejection_recorded (start p w).
Proof.
  unfold start. split; cbn [first_rejection pool].
  - intros e He.
    destruct (rejection (p Slot0)) as [e0|] eqn:E0; cbn in He.
    { injection He as <-. exists Slot0. now apply rejection_some. }
    destruct (rejection (p Slot1)) as [e1|] eqn:E1; cbn in He.
    { injection He as <-. exists Slot1. now apply rejection_some. }
    exists Slot2. now apply rejection_some.
  - intros He i e Hi. apply rejection_some in Hi.
    destruct (rejection (p Slot0)) eqn:E0; [discriminate|].
    destruct (rejection (p Slot1)) eqn:E1; [discriminate|].
    cbn in He. destruct i; congruence.
Qed.

(** What holds of every way a call can end holds along the interleaving. *)
Variable P : Slot -> Outcome A -> Prop.

Lemma advance_leaves (s : @ParState World A) (i : Slot) :
  pool_leaves P (pool s) -> pool_leaves P (pool (advance s i)).
Proof.
  intros Hs j. unfold advance.
  destruct (step (pool s i) (world s)) as [[t' w'] evs] eqn:E.
  cbn [pool]. unfold update. destruct (slot_eqb i j) eqn:Eij; [|apply Hs].
  apply slot_eqb_eq in Eij as <-. specialize (Hs i).
  destruct Hs as [a Ha | cmd k Hk | ms k Hk | m k Hk]; cbn in E.
  - injection E as <- _ _. now constructor.
  - destruct (os_exec cmd (world s)) as [r w'']. injection E as <- _ _.
    apply Hk.
  - now injection E as <- _ _.
  - now injection E as <- _ _.
Qed.

Lemma finish_leaves (s : @ParState World A) (i : Slot) :
  pool_leaves P (pool s) -> pool_leaves P (pool (finish s i)).
Proof.
  intros Hs j. unfold finish. cbn [pool]. unfold update.
  destruct (slot_eqb i j) eqn:Eij; [|apply Hs].
  apply slot_eqb_eq in Eij as <-. constructor.
  now apply Leaves_run.
Qed.

Lemma finish_returned (s : @ParState World A) (i j : Slot) :
  i = j \/ returned (pool s j) -> returned (pool (finish s i) j).
Proof.
  intros Hj. unfold finish. cbn [pool]. unfold update.
  destruct (slot_eqb i j) eqn:Eij.
  - eexists. reflexivity.
  - destruct Hj as [-> | Hj]; [|exact Hj].
    now destruct j.
Qed.

(** Once [Promise.all] is through, every call has returned, in a state [P]
    allows, and the rejection recorded is that of one of them. *)
Lemma settle_all_sound (sched : list Slot) (p : @Pool A) (w : World) :
  pool_leaves P p ->
  let s := settle_all sched p w in
  rejection_recorded s
  /\ forall i, exists o, pool s i = Ret o /\ P i o.
Proof.
  intros Hp. cbv zeta. unfold settle_all.
  assert (Hadv : rejection_recorded (fold_left advance sched (start p w))
                 /\ pool_leaves P (pool (fold_left advance sched (start p w)))).
  { assert (H0 : rejection_recorded (start p w) /\ pool_leaves P (pool (start p w)))
      by (split; [apply start_recorded | exact Hp]).
    revert H0. generalize (start p w).
    induction sched as [|i sched IH]; intros s0 [Hr Hl]; cbn [fold_left].
    - now split.
    - apply IH. split; [now apply advance_recorded | now apply advance_leaves]. }
  destruct Hadv as [Hr Hl]. cbn [fold_left].
  set (s0 := fold_left advance sched (start p w)) in *.
  split.
  - now repeat apply finish_recorded.
  - assert (Hl3 : pool_leaves P
                    (pool (finish (finish (finish s0 Slot0) Slot1) Slot2)))
      by now repeat apply finish_leaves.
    intros i.
    assert (Hret : returned
                     (pool (finish (finish (finish s0 Slot0) Slot1) Slot2) i)).
    { destruct i.
      - apply finish_returned; right. apply finish_returned; right.
        apply finish_returned; now left.
      - apply finish_returned; right. apply finish_returned; now left.
      - apply finish_returned; now left. }
    destruct Hret as [o Ho]. exists o. split; [exact Ho|].
    specialize (Hl3 i). rewrite Ho in Hl3. now inversion Hl3.
Qed.

End PromiseAllFacts.

(** ** checkAllProcesses and killAllProcesses *)

Lemma value_checkAllProcesses
      {World : Type} `{System World} (platform : string) (sched : list Slot)
      (w : World) :
  value (checkAllProcesses platform sched w) =
    match joined (settle_all sched (check_pool platform) w) with
    | Fulfilled (a, b, c) => Fulfilled (mkAllInfo a b c)
    | Rejected e => Rejected e
    | Pending => Pending
    end.
Proof.
  unfold checkAllProcesses, Promise_all. cbn [value].
  now destruct (joined _) as [[[a b] c] | e |].
Qed.

Lemma value_killAllProcesses
      {World : Type} `{System World} (platform : string) (sched : list Slot)
      (force : bool) (w : World) :
  value (killAllProcesses platform sched force w) =
    match joined (settle_all sched (kill_pool platform force) w) with
    | Fulfilled (a, b, c) => Fulfilled (mkAllKilled a b c)
    | Rejected e => Rejected e
    | Pending => Pending
    end.
Proof.
  unfold killAllProcesses, Promise_all. cbn [value].
  now destruct (joined _) as [[[a b] c] | e |].
Qed.

(** C1 (amended). For every platform, schedule of the three concurrent calls
    and behaviour of the commands: [checkAllProcesses] fulfils with one
    record per managed name, each carrying its name.  Each of the three
    [killProcess] calls of [killAllProcesses] settles, for every force flag;
    when all three fulfil, [killAllProcesses] fulfils with their three
    values, one per managed name; when one of them rejects,
    [killAllProcesses] rejects with the error of a call that rejected and
    gives no mapping. *)
Theorem all_processes_joined
        {World : Type} `{System World} (platform : string) (sched : list Slot)
        (force : bool) (w : World) :
  (exists infos,
      value (checkAllProcesses platform sched w) = Fulfilled infos
      /\ name (served_info infos) = "serve-d"
      /\ name (dcdServer_info infos) = "dcd-server"
      /\ name (dcdClient_info infos) = "dcd-client")
  /\ (forall i, kill_pool platform force i = killProcess platform (managed i) force)
  /\ (let s := settle_all sched (kill_pool platform force) w in
      let r := killAllProcesses platform sched force w in
      (forall i, settled (outcome (pool s i)))
      /\ match outcome (pool s Slot0), outcome (pool s Slot1),
               outcome (pool s Slot2) with
         | Fulfilled a, Fulfilled b, Fulfilled c =>
             value r = Fulfilled (mkAllKilled a b c)
         | _, _, _ =>
             exists e i, value r = Rejected e /\ outcome (pool s i) = Rejected e
         end).
Proof.
  split; [|split].
  - rewrite value_checkAllProcesses.
    destruct (settle_all_sound (fun i => info_of (managed i)) sched
                (check_pool platform) w) as [[Hsome Hnone] Hall].
    { intros i. destruct i; apply Leaves_checkProcess. }
    unfold joined.
    destruct (Hall Slot0) as (o0 & E0 & H0).
    destruct (Hall Slot1) as (o1 & E1 & H1).
    destruct (Hall Slot2) as (o2 & E2 & H2).
    destruct (first_rejection _) as [e|] eqn:Ef.
    + destruct (Hsome e eq_refl) as (i & Hi).
      destruct (Hall i) as (o & Eo & Ho). rewrite Hi in Eo.
      injection Eo as <-. contradiction.
    + rewrite E0, E1, E2. cbn [outcome].
      destruct o0 as [i0| |], o1 as [i1| |], o2 as [i2| |]; try contradiction.
      exists (mkAllInfo i0 i1 i2). now repeat split.
  - now intros [| |].
  - cbv zeta. rewrite value_killAllProcesses.
    destruct (settle_all_sound (fun _ => settled) sched
                (kill_pool platform force) w) as [[Hsome Hnone] Hall].
    { intros i. destruct i; apply Leaves_killProcess. }
    split.
    { intros i. destruct (Hall i) as (o & -> & Ho). exact Ho. }
    unfold joined.
    destruct (Hall Slot0) as (o0 & E0 & H0).
    destruct (Hall Slot1) as (o1 & E1 & H1).
    destruct (Hall Slot2) as (o2 & E2 & H2).
    destruct (first_rejection _) as [e|] eqn:Ef.
    + destruct (Hsome e eq_refl) as (i & Hi).
      assert (Hex : exists e0 i0,
                 @Rejected AllKilled e = Rejected e0
                 /\ outcome (pool (settle_all sched (kill_pool platform force) w) i0)
                    = @Rejected bool e0).
      { exists e, i. now rewrite Hi. }
      rewrite E0, E1, E2 in *. cbn [outcome].
      destruct o0 as [a| |], o1 as [b| |], o2 as [c| |]; try exact Hex.
      destruct i; congruence.
    + rewrite E0, E1, E2. cbn [outcome].
      destruct o0 as [a|e0|], o1 as [b|e1|], o2 as [c|e2|];
        try contradiction; try reflexivity;
        try (now exfalso; apply (Hnone eq_refl Slot0 e0));
        try (now exfalso; apply (Hnone eq_refl Slot1 e1));
        now exfalso; apply (Hnone eq_refl Slot2 e2).
Qed.

(** On Windows, [taskkill] is refused for serve-d (exit code 1) and succeeds
    for the other two names: each of those two calls alone fulfils with
    true, and [killAllProcesses(false)] rejects, giving no entry for any
    name, whichever of the calls goes first. *)
Lemma killAllProcesses_counterexample :
  let denied := mkError (Some 1) "Access is denied" in
  let script :=
    [("taskkill  /IM " ++ quoted "serve-d.exe", ExecErr denied);
     ("taskkill  /IM " ++ quoted "dcd-server.exe", ExecOk "");
     ("taskkill  /IM " ++ quoted "dcd-client.exe", ExecOk "")] in
  value (run (killProcess "win32" "dcd-server" false) script) = Fulfilled true
  /\ value (run (killProcess "win32" "dcd-client" false) script) = Fulfilled true
  /\ value (killAllProcesses "win32" [] false script) = Rejected denied
  /\ value (killAllProcesses "win32" [Slot2; Slot1; Slot0] false script)
     = Rejected denied
  /\ value (killAllProcesses "win32" [Slot1; Slot0; Slot2] false script)
     = Rejected denied.
Proof. repeat split. Qed.

(* ================================================================== *)
(** * Further properties of the process manager *)

Lemma sleeps_app (a b : list Event) : sleeps (a ++ b) = (sleeps a ++ sleeps b)%list.
Proof.
  induction a as [|[cmd res | ms | m] a IH]; cbn [app sleeps];
    now rewrite ?IH.
Qed.

Lemma terminations_sent_app (a b : list Event) :
  terminations_sent (a ++ b) = terminations_sent a || terminations_sent b.
Proof. apply existsb_app. Qed.

Section Footprints.

Context {World : Type} `{System World}.
Variable platform : string.

(** The trace of the probe: commands only, at most three, none of them asks
    for a process to be stopped. *)
Lemma checkProcessUnix_loop_footprint (nm : string) (pats : list string) :
  Forall (fun cmd => is_termination cmd = false) pats ->
  forall w : World,
    let r := run (checkProcessUnix_loop nm pats) w in
    length (trace r) = length (commands (trace r))
    /\ sleeps (trace r) = []
    /\ terminations_sent (trace r) = false
    /\ exists k, (k <= length pats)%nat
                 /\ (pats <> [] -> 1 <= k)%nat
                 /\ commands (trace r) = firstn k pats.
Proof.
  induction 1 as [|pattern rest Hk _ IH]; intros w; cbv zeta.
  - cbn. repeat split. exists 0%nat. repeat split; [lia | congruence].
  - rewrite run_checkProcessUnix_loop.
    destruct (found nm (fst (os_exec pattern w))).
    + cbn [trace commands length sleeps terminations_sent existsb].
      rewrite Hk. repeat split; [now destruct (fst (os_exec pattern w))|].
      exists 1%nat. cbn [length firstn]. repeat split; lia.
    + destruct (IH (snd (os_exec pattern w))) as (Hl & Hs & Ht & k & Hk1 & _ & Hc).
      unfold after.
      cbn [trace commands length sleeps terminations_sent existsb].
      fold (terminations_sent (trace (run (checkProcessUnix_loop nm rest)
                                          (snd (os_exec pattern w))))).
      rewrite Hl, Hs, Ht, Hk, Hc. repeat split;
        [now destruct (fst (os_exec pattern w))|].
      exists (S k). cbn [length firstn]. repeat split; lia.
Qed.

End Footprints.

(** The shape of the probe's trace, on either platform. *)
Lemma checkProcess_trace_shape
      {World : Type} `{System World} (platform nm : string) (w : World) :
  let r := run (checkProcess platform nm) w in
  length (trace r) = length (commands (trace r))
  /\ terminations_sent (trace r) = false
  /\ exists k, (1 <= k <= 3)%nat
               /\ commands (trace r) = firstn k (probe_commands platform nm).
Proof.
  cbv zeta. unfold checkProcess, probe_commands.
  destruct (String.eqb platform "win32").
  - rewrite run_checkProcessWindows.
    cbn [trace commands length terminations_sent existsb].
    repeat split; [now destruct (fst (os_exec (tasklist_cmd nm) w))|].
    exists 1%nat. split; [lia | reflexivity].
  - rewrite run_checkProcessUnix.
    assert (Hp : Forall (fun cmd => is_termination cmd = false) (patterns nm))
      by now repeat constructor.
    destruct (checkProcessUnix_loop_footprint nm (patterns nm) Hp w)
      as (Hl & _ & Ht & k & Hk & Hk1 & Hc).
    split; [exact Hl|]. split; [exact Ht|].
    exists k. cbn [patterns length] in Hk. split; [|exact Hc].
    split; [apply Hk1; discriminate | exact Hk].
Qed.

Lemma probe_commands_harmless (platform nm : string) :
  Forall (fun cmd => is_termination cmd = false) (probe_commands platform nm).
Proof.
  unfold probe_commands. destruct (String.eqb platform "win32");
    now repeat constructor.
Qed.

Lemma Forall_firstn {X : Type} (P : X -> Prop) (k : nat) (l : list X) :
  Forall P l -> Forall P (firstn k l).
Proof.
  intros Hl. revert k. induction Hl as [|x l Hx _ IH]; intros [|k];
    cbn [firstn]; constructor; auto.
Qed.


Section KillFootprints.

Context {World : Type} `{System World}.
Variable platform : string.

Lemma kill_each_footprint (signal : string) (pids : list string) :
  forall (killed : bool) (w : World),
    let r := run (kill_each signal pids killed) w in
    terminations_sent (trace r) = signals_sent (trace r)
    /\ sleeps (trace r) = [].
Proof.
  induction pids as [|pid rest IH]; intros killed w; cbv zeta.
  - now cbn.
  - cbn [kill_each run].
    destruct (os_exec (kill_cmd signal pid) w) as [[out | e] w'];
      unfold after; cbn [trace sleeps terminations_sent signals_sent existsb].
    + destruct (IH true w') as (Ht & Hs). split; [reflexivity | exact Hs].
    + destruct (IH killed w') as (Ht & Hs). split; [exact Ht | exact Hs].
Qed.

Lemma checkProcess_footprint (nm : string) (w : World) :
  let r := run (checkProcess platform nm) w in
  terminations_sent (trace r) = false /\ sleeps (trace r) = [].
Proof.
  cbv zeta. unfold checkProcess. destruct (String.eqb platform "win32").
  - rewrite run_checkProcessWindows.
    cbn [trace sleeps terminations_sent existsb].
    now destruct (fst (os_exec (tasklist_cmd nm) w)).
  - rewrite run_checkProcessUnix.
    assert (Hp : Forall (fun cmd => is_termination cmd = false) (patterns nm))
      by now repeat constructor.
    now destruct (checkProcessUnix_loop_footprint nm (patterns nm) Hp w)
      as (_ & Hs & Ht & _).
Qed.

Lemma footprint_phase_head (nm : string) (force : bool) (r1 r2 : ExecResult) :
  terminations_sent (phase_head nm force r1 r2) = succeeded r1
  /\ sleeps (phase_head nm force r1 r2) = []
  /\ exists before,
       phase_head nm force r1 r2 = (before ++ [EvExec (pgrep_f nm) r2])%list.
Proof.
  unfold phase_head. destruct r1 as [out | e], r2 as [out2 | e2], force;
    (split; [reflexivity | split; [reflexivity|]]);
    eexists (_ :: _ :: _); cbn [app]; reflexivity.
Qed.

Lemma footprint_found_log (nm : string) (pids : list string) :
  terminations_sent (found_log nm pids) = false
  /\ sleeps (found_log nm pids) = [].
Proof. now destruct pids. Qed.

(** A forced invocation: it fulfils with whether a termination command
    succeeded, never waits, and rejects only with the error of its pid
    listing, the last command it ran. *)
Lemma forced_footprint (fuel : nat) (nm : string) (w : World) :
  let r := run (killProcessUnix_rec platform (S fuel) nm true) w in
  sleeps (trace r) = []
  /\ (forall b, value r = Fulfilled b -> terminations_sent (trace r) = b)
  /\ (forall e, value r = Rejected e ->
                code_is 1 e = false
                /\ exists before,
                     trace r = (before ++ [EvExec (pgrep_f nm) (ExecErr e)])%list).
Proof.
  cbv zeta. rewrite run_forced.
  destruct (footprint_phase_head nm true
              (fst (os_exec (broad_cmd "-9" nm) w))
              (fst (os_exec (pgrep_f nm) (snd (os_exec (broad_cmd "-9" nm) w)))))
    as (Ht & Hs & before & Hb).
  destruct (fst (os_exec (pgrep_f nm) (snd (os_exec (broad_cmd "-9" nm) w))))
    as [stdout | e0]; cbv zeta; cbn [trace value].
  - set (a1 := os_exec (broad_cmd "-9" nm) w) in *.
    destruct (run_kill_each "-9" (remaining_pids stdout) (succeeded (fst a1))
                (snd (os_exec (pgrep_f nm) (snd a1)))) as (_ & _ & _ & Hv).
    destruct (kill_each_footprint "-9" (remaining_pids stdout)
                (succeeded (fst a1)) (snd (os_exec (pgrep_f nm) (snd a1))))
      as (Htk & Hsk).
    destruct (footprint_found_log nm (remaining_pids stdout)) as (Htf & Hsf).
    split; [|split].
    + now rewrite !sleeps_app, Hs, Hsf, Hsk.
    + intros b [= <-].
      now rewrite !terminations_sent_app, Ht, Htf, Htk, Hv.
    + discriminate.
  - split; [exact Hs|]. split.
    + intros b Hv. destruct (code_is 1 e0); [|discriminate].
      injection Hv as <-. exact Ht.
    + intros e Hv. destruct (code_is 1 e0) eqn:Ec; [discriminate|].
      injection Hv as <-. split; [exact Ec|]. now exists before.
Qed.

End KillFootprints.

(** X2. A [true] from [killProcess] is backed by a command: whenever it
    fulfils with true, a [killall]/[pkill], [kill] or [taskkill] command of
    its own trace succeeded.  On Windows and for a forced call that fulfils,
    the value says whether one did: it is false only when none succeeded.
    (A call that rejects may have had one succeed.) *)
Theorem killProcess_true_dispatched
        {World : Type} `{System World} (platform nm : string) (force b : bool)
        (w : World) :
  let r := run (killProcess platform nm force) w in
  value r = Fulfilled b ->
  (b = true -> terminations_sent (trace r) = true)
  /\ (String.eqb platform "win32" || force = true ->
      terminations_sent (trace r) = b).
Proof.
  cbv zeta. unfold killProcess.
  destruct (String.eqb platform "win32") eqn:Ep.
  - rewrite run_killProcessWindows. cbv zeta.
    cbn [trace value terminations_sent existsb orb].
    assert (Hk : is_termination (taskkill_cmd (if force then "/F" else "") nm)
                 = true) by (destruct force; reflexivity).
    destruct (fst (os_exec _ w)) as [out | e].
    + intros [= <-]. now rewrite Hk.
    + destruct (code_is 128 e); [|discriminate]. intros [= <-].
      split; [discriminate | reflexivity].
  - unfold killProcessUnix. cbn [orb]. destruct force.
    + intros Hv.
      destruct (forced_footprint platform 1 nm w) as (_ & Hb & _).
      rewrite (Hb b Hv). now split.
    + rewrite run_graceful.
      destruct (footprint_phase_head nm false
                  (fst (os_exec (broad_cmd "-15" nm) w))
                  (fst (os_exec (pgrep_f nm)
                          (snd (os_exec (broad_cmd "-15" nm) w)))))
        as (Ht & _ & _).
      destruct (fst (os_exec (pgrep_f nm) (snd (os_exec (broad_cmd "-15" nm) w))))
        as [stdout | e0]; cbv zeta.
      * set (a1 := os_exec (broad_cmd "-15" nm) w) in *.
        set (ks := run (kill_each "-15" (remaining_pids stdout) _) _).
        destruct (run_kill_each "-15" (remaining_pids stdout)
                    (succeeded (fst a1))
                    (snd (os_exec (pgrep_f nm) (snd a1)))) as (_ & _ & _ & Hv).
        destruct (kill_each_footprint "-15" (remaining_pids stdout)
                    (succeeded (fst a1))
                    (snd (os_exec (pgrep_f nm) (snd a1)))) as (Htk & _).
        fold ks in Hv, Htk.
        destruct (still_running _); cbn [trace value].
        -- intros Hf. split; [|discriminate]. intros ->.
           destruct (forced_footprint platform 0 nm
                       (final (run (checkProcess platform nm)
                                   (os_sleep 1000 (final ks)))))
             as (_ & Hb & _).
           rewrite !terminations_sent_app.
           cbn [terminations_sent existsb orb].
           fold (terminations_sent
                   (trace (run (checkProcess platform nm)
                               (os_sleep 1000 (final ks)))
                      ++ EvLog (LogStillRunning nm)
                      :: trace (run (killProcessUnix_rec platform 1 nm true)
                                    (final (run (checkProcess platform nm)
                                                (os_sleep 1000 (final ks))))))).
           rewrite terminations_sent_app.
           cbn [terminations_sent existsb orb].
           fold (terminations_sent
                   (trace (run (killProcessUnix_rec platform 1 nm true)
                               (final (run (checkProcess platform nm)
                                           (os_sleep 1000 (final ks))))))).
           rewrite (Hb true Hf). now rewrite !orb_true_r.
        -- intros [= <-]. split; [|discriminate]. intros Hk.
           rewrite Hv in Hk.
           destruct (footprint_found_log nm (remaining_pids stdout))
             as (Htf & _).
           rewrite !terminations_sent_app, Ht, Htf, Htk.
           destruct (succeeded (fst a1)); cbn [orb] in *; [reflexivity|].
           now rewrite Hk.
      * cbn [trace value]. destruct (code_is 1 e0); [|discriminate].
        intros [= <-]. split; [|discriminate]. intros Hk. now rewrite Ht.
Qed.

Lemma killProcess_true_dispatched_witness :
  terminations_sent
    (trace (run (killProcess "linux" "serve-d" false)
                [("pgrep -f " ++ quoted "serve-d", ExecOk ("311" ++ LF));
                 ("kill -15 311", ExecOk "")]))
  = true.
Proof.
  exact (proj1 (killProcess_true_dispatched "linux" "serve-d" false true
                  [("pgrep -f " ++ quoted "serve-d", ExecOk ("311" ++ LF));
                   ("kill -15 311", ExecOk "")] eq_refl) eq_refl).
Defined.

(** X3. [killProcess] rejects only with the error of the last command it
    ran, and that command is the pid listing [pgrep -f "name"] failing with
    an exit code other than 1 (elsewhere than on Windows), or the [taskkill]
    failing with an exit code other than 128 (on Windows).  A failing broad
    kill, a failing [kill] of a pid and a failing probe are never raised. *)
Theorem killProcess_rejection_source
        {World : Type} `{System World} (platform nm : string) (force : bool)
        (w : World) (e : Error) :
  let r := run (killProcess platform nm force) w in
  value r = Rejected e ->
  exists before,
    trace r
    = (before
         ++ [EvExec (if String.eqb platform "win32"
                     then taskkill_cmd (if force then "/F" else "") nm
                     else pgrep_f nm)
                    (ExecErr e)])%list
    /\ code_is (if String.eqb platform "win32" then 128 else 1) e = false.
Proof.
  cbv zeta. unfold killProcess.
  destruct (String.eqb platform "win32") eqn:Ep.
  - rewrite run_killProcessWindows. cbv zeta. cbn [trace value].
    destruct (fst (os_exec _ w)) as [out | e0]; [discriminate|].
    destruct (code_is 128 e0) eqn:Ec; [discriminate|].
    intros [= <-]. now exists [].
  - unfold killProcessUnix. destruct force.
    + intros Hv. destruct (forced_footprint platform 1 nm w) as (_ & _ & Hr).
      destruct (Hr e Hv) as (Hc & before & Ht). now exists before.
    + rewrite run_graceful.
      destruct (footprint_phase_head nm false
                  (fst (os_exec (broad_cmd "-15" nm) w))
                  (fst (os_exec (pgrep_f nm)
                          (snd (os_exec (broad_cmd "-15" nm) w)))))
        as (_ & _ & before & Hb).
      destruct (fst (os_exec (pgrep_f nm) (snd (os_exec (broad_cmd "-15" nm) w))))
        as [stdout | e0]; cbv zeta.
      * destruct (still_running _); cbn [trace value]; [|discriminate].
        intros Hv.
        match type of Hv with
        | value (run _ ?w') = _ =>
            destruct (forced_footprint platform 0 nm w') as (_ & _ & Hr)
        end.
        destruct (Hr e Hv) as (Hc & before' & Ht). rewrite Ht.
        eexists. split; [|exact Hc].
        repeat (rewrite ?app_assoc, ?app_comm_cons). reflexivity.
      * cbn [trace value]. destruct (code_is 1 e0) eqn:Ec; [discriminate|].
        intros [= <-]. now exists before.
Qed.

Lemma killProcess_rejection_source_witness :
  exists before,
    trace (run (killProcess "linux" "serve-d" true)
               [("killall -9 serve-d 2>/dev/null || pkill -9 -f serve-d 2>/dev/null",
                 ExecOk "");
                ("pgrep -f " ++ quoted "serve-d",
                 ExecErr (mkError (Some 3) "fatal"))])
    = (before ++ [EvExec ("pgrep -f " ++ quoted "serve-d")
                         (ExecErr (mkError (Some 3) "fatal"))])%list
    /\ code_is 1 (mkError (Some 3) "fatal") = false.
Proof.
  exact (killProcess_rejection_source "linux" "serve-d" true
           [("killall -9 serve-d 2>/dev/null || pkill -9 -f serve-d 2>/dev/null",
             ExecOk "");
            ("pgrep -f " ++ quoted "serve-d",
             ExecErr (mkError (Some 3) "fatal"))]
           (mkError (Some 3) "fatal") eq_refl).
Defined.

(** X4. [killProcess] waits at most once, and then 1000 ms: a forced call
    and a call on Windows never wait; a graceful call elsewhere waits exactly
    once when its pid listing succeeded, whether or not it escalates, and
    not at all when the listing failed. *)
Theorem killProcess_settle_delay
        {World : Type} `{System World} (platform nm : string) (force : bool)
        (w : World) :
  let listing :=
    fst (os_exec (pgrep_f nm) (snd (os_exec (broad_cmd "-15" nm) w))) in
  sleeps (trace (run (killProcess platform nm force) w))
  = if String.eqb platform "win32" || force then []
    else if succeeded listing then [1000] else [].
Proof.
  cbv zeta. unfold killProcess.
  destruct (String.eqb platform "win32") eqn:Ep; cbn [orb].
  - rewrite run_killProcessWindows. reflexivity.
  - unfold killProcessUnix. destruct force.
    + now destruct (forced_footprint platform 1 nm w) as (Hs & _).
    + rewrite run_graceful.
      destruct (footprint_phase_head nm false
                  (fst (os_exec (broad_cmd "-15" nm) w))
                  (fst (os_exec (pgrep_f nm)
                          (snd (os_exec (broad_cmd "-15" nm) w)))))
        as (_ & Hs & _).
      destruct (fst (os_exec (pgrep_f nm) (snd (os_exec (broad_cmd "-15" nm) w))))
        as [stdout | e0]; cbv zeta; cbn [succeeded]; [|exact Hs].
      set (a1 := os_exec (broad_cmd "-15" nm) w) in *.
      set (ks := run (kill_each "-15" (remaining_pids stdout) _) _).
      destruct (kill_each_footprint "-15" (remaining_pids stdout)
                  (succeeded (fst a1))
                  (snd (os_exec (pgrep_f nm) (snd a1)))) as (_ & Hsk).
      fold ks in Hsk.
      destruct (footprint_found_log nm (remaining_pids stdout)) as (_ & Hsf).
      destruct (checkProcess_footprint platform nm (os_sleep 1000 (final ks)))
        as (_ & Hsp).
      destruct (still_running _); cbn [trace].
      * destruct (forced_footprint platform 0 nm
                    (final (run (checkProcess platform nm)
                                (os_sleep 1000 (final ks))))) as (Hsr & _).
        rewrite !sleeps_app, Hs, Hsf, Hsk. cbn [app sleeps].
        rewrite sleeps_app, Hsp. cbn [app sleeps]. now rewrite Hsr.
      * rewrite !sleeps_app, Hs, Hsf, Hsk. cbn [app sleeps]. now rewrite Hsp.
Qed.

(** ** Each call of a Promise.all on its own *)

Lemma Path_run {World : Type} `{System World} {A : Type} (t : Task A) :
  forall w : World, Path t (trace (run t w)) (value (run t w)).
Proof.
  induction t as [a | cmd k IH | ms k IH | m k IH]; intros w; cbn [run].
  - constructor.
  - destruct (os_exec cmd w) as [r w']. unfold after. cbn [trace value].
    constructor. apply IH.
  - unfold after. cbn [trace value]. constructor. apply IH.
  - unfold after. cbn [trace value]. constructor. apply IH.
Qed.

(** A path is the run of the task on the answers it got. *)
Lemma Path_replay {A : Type} (t : Task A) (es : list Event) (a : A) :
  Path t es a ->
  forall rest : list ExecResult,
    run t (answers_of es ++ rest)%list = mkRun es a rest.
Proof.
  induction 1 as [a | cmd k r es a _ IH | ms k es a _ IH | m k es a _ IH];
    intros rest; cbn [run answers_of app os_exec os_sleep Replay.system].
  - reflexivity.
  - now rewrite IH.
  - now rewrite IH.
  - now rewrite IH.
Qed.

Section Projection.

Context {World : Type} `{System World} {A : Type}.
Variable p : @Pool A.

Lemma projected_extend (s : @ParState World A) (E : Slot -> list Event)
      (i : Slot) (t' : Async A) (w' : World) (evs : list Event)
      (fr : option Error) :
  projected p s E ->
  (forall es a, Path t' es a -> Path (pool s i) (evs ++ es) a) ->
  projected p (mkParState (update i t' (pool s)) w' (events s ++ evs) fr)
            (fun j => if slot_eqb i j then (E i ++ evs)%list else E j).
Proof.
  intros [Hperm Hpath] Hstep. split; cbn [events pool].
  - destruct i; cbn [slot_eqb].
    + rewrite <- !app_assoc.
      apply Permutation_trans with ((E Slot0 ++ E Slot1 ++ E Slot2) ++ evs)%list;
        [now apply Permutation_app_tail|].
      rewrite <- app_assoc. apply Permutation_app_head.
      apply Permutation_app_comm.
    + apply Permutation_trans with ((E Slot0 ++ E Slot1 ++ E Slot2) ++ evs)%list;
        [now apply Permutation_app_tail|].
      rewrite <- !app_assoc. do 2 apply Permutation_app_head.
      apply Permutation_app_comm.
    + apply Permutation_trans with ((E Slot0 ++ E Slot1 ++ E Slot2) ++ evs)%list;
        [now apply Permutation_app_tail|].
      now rewrite <- !app_assoc.
  - intros j es a. unfold update. destruct (slot_eqb i j) eqn:Eij.
    + apply slot_eqb_eq in Eij as <-. intros Hp.
      rewrite <- app_assoc. apply Hpath. now apply Hstep.
    + apply Hpath.
Qed.

Lemma projected_start (w : World) : projected p (start p w) (fun _ => []).
Proof. split; [constructor | now intros i es a]. Qed.

Lemma projected_advance (s : @ParState World A) (E : Slot -> list Event)
      (i : Slot) :
  projected p s E -> exists E', projected p (advance s i) E'.
Proof.
  intros Hs. unfold advance.
  destruct (step (pool s i) (world s)) as [[t' w'] evs] eqn:Est.
  eexists. apply projected_extend; [exact Hs|].
  intros es a Hp.
  destruct (pool s i) as [o | cmd k | ms k | m k]; cbn in Est.
  - injection Est as <- _ <-. exact Hp.
  - destruct (os_exec cmd (world s)) as [r w'']. injection Est as <- _ <-.
    now constructor.
  - injection Est as <- _ <-. now constructor.
  - injection Est as <- _ <-. now constructor.
Qed.

Lemma projected_finish (s : @ParState World A) (E : Slot -> list Event)
      (i : Slot) :
  projected p s E -> exists E', projected p (finish s i) E'.
Proof.
  intros Hs. unfold finish. eexists. apply projected_extend; [exact Hs|].
  intros es a Hp. inversion Hp; subst. rewrite app_nil_r. apply Path_run.
Qed.

(** Every call of the pool went down one of its own paths; the joint trace
    is a rearrangement of the three paths' events. *)
Lemma settle_all_projection (sched : list Slot) (w : World) :
  exists E : Slot -> list Event,
    Permutation (events (settle_all sched p w))
                (E Slot0 ++ E Slot1 ++ E Slot2)
    /\ forall i, Path (p i) (E i) (outcome (pool (settle_all sched p w) i)).
Proof.
  assert (Hadv : exists E, projected p (fold_left advance sched (start p w)) E).
  { assert (H0 : exists E, projected p (start p w) E)
      by (eexists; apply projected_start).
    revert H0. generalize (start p w).
    induction sched as [|i sched IH]; intros s0 [E HE]; cbn [fold_left].
    - now exists E.
    - apply IH. now apply (projected_advance s0 E). }
  destruct Hadv as [E0 H0]. unfold settle_all. cbn [fold_left].
  destruct (projected_finish _ _ Slot0 H0) as [E1 H1].
  destruct (projected_finish _ _ Slot1 H1) as [E2 H2].
  destruct (projected_finish _ _ Slot2 H2) as [E3 [Hperm Hpath]].
  exists E3. split; [exact Hperm|]. intros i.
  destruct (settle_all_sound (fun _ _ => True) sched p w) as [_ Hall].
  { intros j. clear. induction (p j); constructor; auto. }
  unfold settle_all in Hall. cbn [fold_left] in Hall.
  destruct (Hall i) as (o & Ho & _).
  specialize (Hpath i [] o). rewrite Ho in *. cbn [outcome].
  rewrite app_nil_r in Hpath. apply Hpath. constructor.
Qed.

End Projection.

(** Each call of a [Promise.all] behaves as it does alone on some list of
    answers. *)
Lemma settle_all_alone
      {World : Type} `{System World} {A : Type} (p : @Pool A)
      (sched : list Slot) (w : World) :
  exists answers : Slot -> list ExecResult,
    Permutation (events (settle_all sched p w))
                (trace (run (p Slot0) (answers Slot0))
                   ++ trace (run (p Slot1) (answers Slot1))
                   ++ trace (run (p Slot2) (answers Slot2)))
    /\ forall i, outcome (pool (settle_all sched p w) i)
                 = value (run (p i) (answers i)).
Proof.
  destruct (settle_all_projection p sched w) as (E & Hperm & Hpath).
  exists (fun i => answers_of (E i)).
  assert (Hrun : forall i,
             run (p i) (answers_of (E i))
             = mkRun (E i) (outcome (pool (settle_all sched p w) i)) []).
  { intros i. rewrite <- (app_nil_r (answers_of (E i))).
    apply Path_replay, Hpath. }
  rewrite !Hrun. split; [exact Hperm|]. intros i. now rewrite Hrun.
Qed.

Lemma commands_Permutation (a b : list Event) :
  Permutation a b -> Permutation (commands a) (commands b).
Proof.
  induction 1 as [| [cmd r | ms | m] a b _ IH
                  | [c1 r1 | ms1 | m1] [c2 r2 | ms2 | m2] a | a b c _ IH1 _ IH2];
    cbn [commands]; try constructor; auto.
  now apply Permutation_trans with (commands b).
Qed.

Lemma invocations_Permutation (a b : list Event) :
  Permutation a b -> Permutation (invocations a) (invocations b).
Proof.
  induction 1 as [| ev a b _ IH | ev1 ev2 a | a b c _ IH1 _ IH2].
  - constructor.
  - destruct ev as [cmd r | ms | [] ]; cbn [invocations];
      try assumption. now constructor.
  - destruct ev1 as [c1 r1 | ms1 | [] ], ev2 as [c2 r2 | ms2 | [] ];
      cbn [invocations]; try reflexivity. constructor.
  - now apply Permutation_trans with (invocations b).
Qed.

Lemma harmless_commands (tr : list Event) :
  Forall (fun cmd => is_termination cmd = false) (commands tr) ->
  terminations_sent tr = false.
Proof.
  induction tr as [|[cmd [out | e] | ms | m] tr IH]; cbn [commands];
    intros Hf; cbn [terminations_sent existsb]; try (apply IH; assumption);
    try reflexivity.
  - inversion Hf as [|? ? Hc Hr]; subst. rewrite Hc. now apply IH.
  - inversion Hf; subst. now apply IH.
Qed.

Lemma trace_checkAllProcesses
      {World : Type} `{System World} (platform : string) (sched : list Slot)
      (w : World) :
  trace (checkAllProcesses platform sched w)
  = events (settle_all sched (check_pool platform) w).
Proof.
  unfold checkAllProcesses, Promise_all. cbn [value trace].
  now destruct (joined _) as [[[a b] c] | e |].
Qed.

(** X5. [checkAllProcesses] only lists processes, however its three probes
    interleave: its trace consists of commands alone, between three and
    nine of them, each one a listing command of the probe of a managed name;
    none is a [kill], [killall] or [taskkill]. *)
Theorem checkAllProcesses_read_only
        {World : Type} `{System World} (platform : string) (sched : list Slot)
        (w : World) :
  let tr := trace (checkAllProcesses platform sched w) in
  length tr = length (commands tr)
  /\ (3 <= length tr <= 9)%nat
  /\ Forall (fun cmd => exists i, In cmd (probe_commands platform (managed i)))
            (commands tr)
  /\ Forall (fun cmd => is_termination cmd = false) (commands tr)
  /\ terminations_sent tr = false.
Proof.
  cbv zeta. rewrite trace_checkAllProcesses.
  destruct (settle_all_alone (check_pool platform) sched w)
    as (answers & Hperm & _).
  change (check_pool platform Slot0) with (checkProcess platform "serve-d") in *.
  change (check_pool platform Slot1) with (checkProcess platform "dcd-server") in *.
  change (check_pool platform Slot2) with (checkProcess platform "dcd-client") in *.
  destruct (checkProcess_trace_shape platform "serve-d" (answers Slot0))
    as (Hl0 & _ & k0 & Hk0 & Hc0).
  destruct (checkProcess_trace_shape platform "dcd-server" (answers Slot1))
    as (Hl1 & _ & k1 & Hk1 & Hc1).
  destruct (checkProcess_trace_shape platform "dcd-client" (answers Slot2))
    as (Hl2 & _ & k2 & Hk2 & Hc2).
  set (t0 := trace (run (checkProcess platform "serve-d") (answers Slot0))) in *.
  set (t1 := trace (run (checkProcess platform "dcd-server") (answers Slot1))) in *.
  set (t2 := trace (run (checkProcess platform "dcd-client") (answers Slot2))) in *.
  clearbody t0 t1 t2.
  pose proof (commands_Permutation _ _ Hperm) as Hcp.
  rewrite !commands_app in Hcp.
  assert (Hlen : forall k nm, (1 <= k <= 3)%nat ->
             (1 <= length (firstn k (probe_commands platform nm)) <= 3)%nat).
  { intros k nm Hk. rewrite length_firstn. unfold probe_commands.
    destruct (String.eqb platform "win32"); cbn [length patterns];
      clear -Hk; lia. }
  assert (Hin : forall k i,
             Forall (fun cmd => exists j, In cmd (probe_commands platform (managed j)))
                    (firstn k (probe_commands platform (managed i)))).
  { intros k i. apply Forall_firstn, Forall_forall. intros cmd Hc.
    now exists i. }
  assert (Hcl : length (commands t0 ++ commands t1 ++ commands t2)
                = length (t0 ++ t1 ++ t2))
    by (rewrite !length_app, Hl0, Hl1, Hl2; reflexivity).
  split; [|split; [|split; [|split]]].
  - rewrite (Permutation_length Hperm), (Permutation_length Hcp).
    symmetry. exact Hcl.
  - rewrite (Permutation_length Hperm), !length_app, Hl0, Hl1, Hl2, Hc0, Hc1, Hc2.
    pose proof (Hlen k0 "serve-d" Hk0) as B0.
    pose proof (Hlen k1 "dcd-server" Hk1) as B1.
    pose proof (Hlen k2 "dcd-client" Hk2) as B2.
    revert B0 B1 B2.
    generalize (length (firstn k0 (probe_commands platform "serve-d"))).
    generalize (length (firstn k1 (probe_commands platform "dcd-server"))).
    generalize (length (firstn k2 (probe_commands platform "dcd-client"))).
    clear. intros n2 n1 n0 B0 B1 B2. lia.
  - eapply Permutation_Forall; [symmetry; exact Hcp|].
    rewrite Hc0, Hc1, Hc2.
    apply Forall_app; split; [|apply Forall_app; split].
    + apply (Hin k0 Slot0).
    + apply (Hin k1 Slot1).
    + apply (Hin k2 Slot2).
  - eapply Permutation_Forall; [symmetry; exact Hcp|].
    rewrite Hc0, Hc1, Hc2.
    apply Forall_app; split; [|apply Forall_app; split];
      apply Forall_firstn, probe_commands_harmless.
  - apply harmless_commands.
    eapply Permutation_Forall; [symmetry; exact Hcp|].
    rewrite Hc0, Hc1, Hc2.
    apply Forall_app; split; [|apply Forall_app; split];
      apply Forall_firstn, probe_commands_harmless.
Qed.

Lemma trace_killAllProcesses
      {World : Type} `{System World} (platform : string) (sched : list Slot)
      (force : bool) (w : World) :
  exists ending,
    trace (killAllProcesses platform sched force w)
    = (EvLog (LogStoppingAll force)
         :: events (settle_all sched (kill_pool platform force) w)
         ++ ending)%list
    /\ commands ending = [] /\ invocations ending = [].
Proof.
  unfold killAllProcesses, Promise_all. cbn [value trace].
  destruct (joined _) as [[[a b] c] | e |]; cbn [trace].
  - eexists. split; [reflexivity | now split].
  - exists []. now rewrite app_nil_r.
  - exists []. now rewrite app_nil_r.
Qed.

(** X6. On Windows [killAllProcesses] runs the three [taskkill] commands,
    one per managed name, each exactly once and nothing else, under every
    schedule and whatever they answer: a call that fails, and makes the
    whole operation reject, does not keep the other two commands from
    running. *)
Theorem killAllProcesses_windows_commands
        {World : Type} `{System World} (sched : list Slot) (force : bool)
        (w : World) :
  Permutation
    (commands (trace (killAllProcesses "win32" sched force w)))
    (map (fun i => taskkill_cmd (if force then "/F" else "") (managed i))
         [Slot0; Slot1; Slot2]).
Proof.
  destruct (trace_killAllProcesses "win32" sched force w)
    as (ending & -> & Hc & _).
  cbn [commands]. rewrite commands_app, Hc, app_nil_r.
  destruct (settle_all_alone (kill_pool "win32" force) sched w)
    as (answers & Hperm & _).
  apply Permutation_trans with (1 := commands_Permutation _ _ Hperm).
  change (kill_pool "win32" force Slot0)
    with (killProcessWindows "serve-d" force).
  change (kill_pool "win32" force Slot1)
    with (killProcessWindows "dcd-server" force).
  change (kill_pool "win32" force Slot2)
    with (killProcessWindows "dcd-client" force).
  rewrite !run_killProcessWindows. cbv zeta. cbn [trace app commands map managed].
  reflexivity.
Qed.

(** The invocations of one call, on any system. *)
Lemma killProcess_invocations
      {World : Type} `{System World} (platform nm : string) (force : bool)
      (w : World) :
  String.eqb platform "win32" = false ->
  exists escalated : bool,
    invocations (trace (run (killProcess platform nm force) w))
    = (nm, force) :: (if escalated then [(nm, true)] else [])
    /\ (force = true -> escalated = false).
Proof.
  intros Hp. unfold killProcess. rewrite Hp. unfold killProcessUnix.
  destruct force.
  - exists false. split; [apply invocations_forced | reflexivity].
  - rewrite run_graceful.
    destruct (fst (os_exec (pgrep_f nm) (snd (os_exec (broad_cmd "-15" nm) w))))
      as [stdout | e]; cbv zeta.
    + set (ks := run (kill_each "-15" (remaining_pids stdout) _) _).
      destruct (run_kill_each "-15" (remaining_pids stdout)
                  (succeeded (fst (os_exec (broad_cmd "-15" nm) w)))
                  (snd (os_exec (pgrep_f nm)
                          (snd (os_exec (broad_cmd "-15" nm) w)))))
        as (_ & _ & Hik & _). fold ks in Hik.
      destruct (checkProcess_quiet platform nm (os_sleep 1000 (final ks)))
        as (_ & Hip & _).
      destruct (still_running _); cbn [trace].
      * exists true. split; [|discriminate].
        rewrite !invocations_app, invocations_phase_head,
          invocations_found_log, Hik.
        cbn [invocations app]. rewrite invocations_app, Hip.
        cbn [invocations app]. now rewrite invocations_forced.
      * exists false. split; [|discriminate].
        rewrite !invocations_app, invocations_phase_head,
          invocations_found_log, Hik.
        cbn [invocations app]. now rewrite Hip.
    + exists false. cbn [trace]. split; [|discriminate].
      apply invocations_phase_head.
Qed.

(** X7. Off Windows, however the three calls of [killAllProcesses]
    interleave and whatever the commands answer, [killProcessUnix] is
    entered exactly once for each managed name with the requested force
    flag, and at most once more for a name, then forced; with [force] set no
    name is entered twice. *)
Theorem killAllProcesses_invocations
        {World : Type} `{System World} (platform : string) (sched : list Slot)
        (force : bool) (w : World) :
  String.eqb platform "win32" = false ->
  exists escalated : Slot -> bool,
    Permutation
      (invocations (trace (killAllProcesses platform sched force w)))
      (flat_map (fun i => (managed i, force)
                            :: (if escalated i then [(managed i, true)] else []))
                [Slot0; Slot1; Slot2])
    /\ (force = true -> forall i, escalated i = false).
Proof.
  intros Hp.
  destruct (trace_killAllProcesses platform sched force w)
    as (ending & -> & _ & Hi).
  cbn [invocations]. rewrite invocations_app, Hi, app_nil_r.
  destruct (settle_all_alone (kill_pool platform force) sched w)
    as (answers & Hperm & _).
  change (kill_pool platform force Slot0)
    with (killProcess platform "serve-d" force) in Hperm.
  change (kill_pool platform force Slot1)
    with (killProcess platform "dcd-server" force) in Hperm.
  change (kill_pool platform force Slot2)
    with (killProcess platform "dcd-client" force) in Hperm.
  destruct (killProcess_invocations platform "serve-d" force (answers Slot0) Hp)
    as (e0 & H0 & F0).
  destruct (killProcess_invocations platform "dcd-server" force (answers Slot1) Hp)
    as (e1 & H1 & F1).
  destruct (killProcess_invocations platform "dcd-client" force (answers Slot2) Hp)
    as (e2 & H2 & F2).
  exists (fun i => match i with Slot0 => e0 | Slot1 => e1 | Slot2 => e2 end).
  split.
  - apply Permutation_trans with (1 := invocations_Permutation _ _ Hperm).
    rewrite !invocations_app, H0, H1, H2.
    cbn [flat_map managed app]. rewrite app_nil_r.
    destruct e0, e1, e2; reflexivity.
  - intros Hf [| |]; auto.
Qed.

Lemma killAllProcesses_invocations_witness :
  exists escalated : Slot -> bool,
    Permutation
      (invocations
         (trace (killAllProcesses "linux" [Slot2; Slot0; Slot2; Slot1] true
                   [("pgrep -f " ++ quoted "dcd-client", ExecOk "42")])))
      (flat_map (fun i => (managed i, true)
                            :: (if escalated i then [(managed i, true)] else []))
                [Slot0; Slot1; Slot2])
    /\ (true = true -> forall i, escalated i = false).
Proof.
  exact (killAllProcesses_invocations "linux" [Slot2; Slot0; Slot2; Slot1] true
           [("pgrep -f " ++ quoted "dcd-client", ExecOk "42")] eq_refl).
Defined.

(** ** Reading a status line back *)

Lemma length_append (a b : string) :
  String.length (a ++ b) = (String.length a + String.length b)%nat.
Proof. induction a as [|c a IH]; cbn; [reflexivity | now rewrite IH]. Qed.

Lemma append_cancel_l (a x y : string) : a ++ x = a ++ y -> x = y.
Proof.
  induction a as [|c a IH]; cbn; [auto|]. intros [= Heq]. auto.
Qed.

Lemma append_cancel_r (t : string) :
  forall x y : string, x ++ t = y ++ t -> x = y.
Proof.
  induction x as [|c x IH]; intros [|d y] Heq; cbn in Heq.
  - reflexivity.
  - apply (f_equal String.length) in Heq. cbn in Heq.
    rewrite length_append in Heq. lia.
  - apply (f_equal String.length) in Heq. cbn in Heq.
    rewrite length_append in Heq. lia.
  - injection Heq as -> Heq. f_equal. now apply IH.
Qed.

Lemma to_int_proper (z : Z) : Z.to_int z <> Decimal.Pos Decimal.Nil
                              /\ Z.to_int z <> Decimal.Neg Decimal.Nil.
Proof.
  destruct z as [|q|q]; cbn; split; try discriminate;
    intros [= Hq]; now apply (Unsigned.to_uint_nonnil q).
Qed.

(** The text of a number determines the number. *)
Lemma toString_inj (m n : number) : toString m = toString n -> m = n.
Proof.
  assert (Hparse : forall z,
             NilZero.int_of_string (toString (Int z)) = Some (Z.to_int z)).
  { intros z. cbn [toString]. destruct (to_int_proper z).
    now apply NilZero.isi. }
  destruct m as [|x], n as [|y]; intros Heq.
  - reflexivity.
  - apply (f_equal NilZero.int_of_string) in Heq. rewrite Hparse in Heq.
    discriminate.
  - apply (f_equal NilZero.int_of_string) in Heq. rewrite Hparse in Heq.
    discriminate.
  - apply (f_equal NilZero.int_of_string) in Heq. rewrite !Hparse in Heq.
    injection Heq as Heq. f_equal. now apply DecimalZ.to_int_inj.
Qed.

(** X8. The status line tells the states apart: two records with the same
    line are both running or both stopped; when stopped they have the same
    name, and when running under the same name they have the same pid. *)
Theorem formatProcessStatus_distinguishes (a b : ProcessInfo) :
  formatProcessStatus a = formatProcessStatus b ->
  running a = running b
  /\ if running a
     then name a = name b -> pid a = pid b
     else name a = name b.
Proof.
  destruct a as [n1 p1 r1 c1], b as [n2 p2 r2 c2].
  unfold formatProcessStatus. cbn [name pid running command].
  destruct r1, r2; intros Heq; try discriminate.
  - split; [reflexivity|]. intros ->.
    apply (append_cancel_l "$(check) ") in Heq.
    apply append_cancel_l in Heq.
    apply (append_cancel_l ": running (PID: ") in Heq.
    apply append_cancel_r in Heq. now apply toString_inj.
  - split; [reflexivity|].
    apply (append_cancel_l "$(x) ") in Heq.
    now apply (append_cancel_r ": stoped") in Heq.
Qed.

Lemma formatProcessStatus_distinguishes_witness :
  true = true
  /\ ("dcd-server" = "dcd-server" -> Int 4242 = Int 4242).
Proof.
  exact (formatProcessStatus_distinguishes
           (mkProcessInfo "dcd-server" (Int 4242) true None)
           (mkProcessInfo "dcd-server" (Int 4242) true (Some "dcd-server.exe"))
           eq_refl).
Defined.

(* ================================================================== *)
(** * DUB project detection *)

Lemma endsWith_spec (suffix s : string) :
  endsWith suffix s = true <-> exists base, s = base ++ suffix.
Proof.
  split.
  - induction s as [|c s IH]; cbn [endsWith]; intros He;
      apply orb_true_iff in He as [He | He].
    + apply String.eqb_eq in He. now exists "".
    + discriminate.
    + apply String.eqb_eq in He. now exists "".
    + destruct (IH He) as [base ->]. now exists (String c base).
  - intros [base ->]. induction base as [|c base IH].
    + cbn [append]. destruct suffix; cbn [endsWith];
        now rewrite String.eqb_refl.
    + cbn [append endsWith]. rewrite IH. apply orb_true_r.
Qed.

(** X9. [isDSourceFile] holds exactly of the names made of some text
    followed by [.d] or by [.di], in that case exactly (so [.d] itself is
    one and [main.D] is not); [dub.json] and [dub.sdl], the names
    [isDubConfigFile] holds of, are never D source files. *)
Theorem isDSourceFile_spec (fileName : string) :
  (isDSourceFile fileName = true
   <-> exists base, fileName = base ++ ".d" \/ fileName = base ++ ".di")
  /\ (isDubConfigFile fileName = true -> isDSourceFile fileName = false)
  /\ isDSourceFile ".d" = true
  /\ isDSourceFile "main.D" = false.
Proof.
  split; [|split; [|split; reflexivity]].
  - unfold isDSourceFile. rewrite orb_true_iff, !endsWith_spec.
    split.
    + intros [[base ->] | [base ->]]; exists base; auto.
    + intros [base [-> | ->]]; [left | right]; now exists base.
  - unfold isDubConfigFile. intros Hc.
    apply orb_true_iff in Hc as [Hc | Hc]; apply String.eqb_eq in Hc;
      subst; reflexivity.
Qed.

(** X10. What a fulfilled [checkDubProject] reports hangs together:
    [isDubProject] is [hasDubJson || hasDubSdl], whatever [hasSourceFiles]
    is; [hasWorkspace] says whether a first workspace folder exists, and
    without one every flag is false; a [dubConfigPath] is given exactly when
    [isDubProject], and it is [dub.json] in the first workspace folder when
    that exists, [dub.sdl] there otherwise. *)
Theorem checkDubProject_result
        {World : Type} `{FileSystem World}
        (path_join : string -> string -> string)
        (folders : option (list string)) (w : World) (r : DubProjectCheck) :
  fs_value (checkDubProject path_join folders w) = Fulfilled r ->
  isDubProject r = hasDubJson r || hasDubSdl r
  /\ hasWorkspace r = match folders with Some (_ :: _) => true | _ => false end
  /\ (hasWorkspace r = false ->
      hasDubJson r = false /\ hasDubSdl r = false /\ hasSourceFiles r = false)
  /\ match dubConfigPath r with
     | Some path =>
         isDubProject r = true
         /\ exists folder rest,
              folders = Some (folder :: rest)
              /\ path = path_join folder (if hasDubJson r then "dub.json"
                                          else "dub.sdl")
     | None => isDubProject r = false
     end.
Proof.
  unfold checkDubProject, fileExists, hasDSourceFiles.
  destruct folders as [[|folder rest]|].
  - intros [= <-]. cbn. repeat split.
  - destruct (fs_access (path_join folder "dub.json") w) as [j w1].
    destruct (fs_access (path_join folder "dub.sdl") w1) as [d w2].
    destruct (find_files folder w2) as [[n|] w3]; cbn [option_map fs_value];
      [|discriminate].
    intros [= <-]. cbn [isDubProject hasDubJson hasDubSdl hasWorkspace
                          hasSourceFiles dubConfigPath].
    split; [reflexivity|]. split; [reflexivity|]. split; [discriminate|].
    destruct j; [|destruct d]; cbn; try reflexivity; split; eauto.
  - intros [= <-]. cbn. repeat split.
Qed.

Lemma checkDubProject_result_witness :
  true = true || true
  /\ true = true
  /\ (true = false -> true = false /\ true = false /\ false = false)
  /\ (true = true
      /\ exists folder rest,
           Some ["/work/app"; "/work/lib"] = Some (folder :: rest)
           /\ join "/work/app" "dub.json" = join folder "dub.json").
Proof.
  exact (checkDubProject_result join (Some ["/work/app"; "/work/lib"])
           (["/work/app/dub.json"; "/work/app/dub.sdl"; "/work/lib/dub.json"],
            Some 0%nat)
           (mkDubProjectCheck true true true false true
                              (Some (join "/work/app" "dub.json")))
           eq_refl).
Defined.

(* ================================================================== *)
(** * Status bar visibility *)

Lemma lower_unit_idempotent (c : ascii) :
  lower_unit (lower_unit c) = lower_unit c.
Proof.
  destruct c as [[] [] [] [] [] [] [] []]; vm_compute; reflexivity.
Qed.

Lemma toLowerCase_idempotent (s : string) :
  toLowerCase (toLowerCase s) = toLowerCase s.
Proof.
  induction s as [|c s IH]; cbn [toLowerCase]; [reflexivity|].
  now rewrite lower_unit_idempotent, IH.
Qed.

(** X12. [checkStatusbarVisibility] shows the buttons exactly when the
    setting is on globally, or a workspace folder is open, or the editor in
    view (the active one when the argument is left out, none for [null]) has
    the setting on for its document or shows a relevant document.  So a call
    without an editor answers as a call with the active editor, or with
    [null] when there is none, and with a workspace folder open the answer is
    always yes. *)
Theorem checkStatusbarVisibility_spec
        (basename : string -> string) (win : Window) (overrideConfig : string)
        (editor : EditorArg) :
  checkStatusbarVisibility basename win overrideConfig editor
  = setting win None overrideConfig
    || hasDubProject win
    || match editor_in_view win editor with
       | Some document =>
           setting win (Some (uri document)) overrideConfig
           || isStatusbarRelevantDocument basename document
       | None => false
       end
  /\ checkStatusbarVisibility basename win overrideConfig EditorUndefined
     = checkStatusbarVisibility basename win overrideConfig
         match activeTextEditor win with
         | Some document => Editor document
         | None => EditorNull
         end
  /\ (hasDubProject win = true ->
      checkStatusbarVisibility basename win overrideConfig editor = true).
Proof.
  unfold checkStatusbarVisibility, editor_in_view.
  split; [|split].
  - destruct (setting win None overrideConfig); [reflexivity|].
    cbn [orb].
    destruct editor as [| |document].
    + destruct (activeTextEditor win) as [document|].
      * destruct (setting win (Some (uri document)) overrideConfig
                  || isStatusbarRelevantDocument basename document);
          [now rewrite orb_true_r | now rewrite orb_false_r].
      * now rewrite orb_false_r.
    + now rewrite orb_false_r.
    + destruct (setting win (Some (uri document)) overrideConfig
                || isStatusbarRelevantDocument basename document);
        [now rewrite orb_true_r | now rewrite orb_false_r].
  - destruct (setting win None overrideConfig); [reflexivity|].
    now destruct (activeTextEditor win).
  - intros ->.
    destruct (setting win None overrideConfig); [reflexivity|].
    destruct editor as [| |document]; [|reflexivity|].
    + destruct (activeTextEditor win) as [document|]; [|reflexivity].
      now destruct (setting win (Some (uri document)) overrideConfig
                    || isStatusbarRelevantDocument basename document).
    + now destruct (setting win (Some (uri document)) overrideConfig
                    || isStatusbarRelevantDocument basename document).
Qed.

(** X13. [isStatusbarRelevantDocument] reads the file name through
    [toLowerCase] only: a document and the one whose file name is written in
    lower case are relevant alike, and so are any two documents of one
    language whose file names differ in case only. *)
Theorem isStatusbarRelevantDocument_ignores_case
        (basename : string -> string) (language file file' u u' : string) :
  isStatusbarRelevantDocument basename
    (mkTextDocument language (toLowerCase file) u)
  = isStatusbarRelevantDocument basename (mkTextDocument language file u)
  /\ (toLowerCase file = toLowerCase file' ->
      isStatusbarRelevantDocument basename (mkTextDocument language file u)
      = isStatusbarRelevantDocument basename
          (mkTextDocument language file' u')).
Proof.
  unfold isStatusbarRelevantDocument. cbn [languageId fileName].
  split.
  - now rewrite toLowerCase_idempotent.
  - now intros ->.
Qed.

(* ================================================================== *)
(** * StartupProgress *)

Lemma protocol_app (evs evs' : list UiEvent) (st : option nat * nat) :
  protocol (evs ++ evs')%list st
  = match protocol evs st with
    | Some st' => protocol evs' st'
    | None => None
    end.
Proof.
  revert st. induction evs as [|ev evs IH]; intros st; [reflexivity|].
  cbn [app protocol].
  destruct ev; destruct (fst st);
    try reflexivity; destruct (_ =? _)%nat; auto.
Qed.

Section StartupProofs.

Variable num : Type.
Variables (zero one : num) (falsy : num -> bool)
          (percent : num -> num -> string).

Lemma globalStep_well_formed step max title msg sp :
  well_formed sp ->
  well_formed (globalStep num one falsy percent step max title msg sp).
Proof.
  intros Hw. unfold globalStep.
  destruct (startedGlobal sp) eqn:Hs; [|exact Hw].
  destruct (progress sp) as [session|] eqn:Hsess; [|exact Hw].
  destruct Hw as (Hp & Hprog & Hres & Hrej & Hpos).
  rewrite Hs, Hsess in *.
  unfold well_formed.
  cbn [ui progress opened startedGlobal resolve reject].
  rewrite protocol_app, Hp. cbn [protocol fst snd].
  rewrite Nat.eqb_refl. auto.
Qed.

Lemma call_well_formed sp c :
  well_formed sp -> well_formed (call num zero one falsy percent sp c).
Proof.
  intros Hw. destruct c as [| |step max title msg|nm|step max msg];
    cbn [call].
  - unfold startGlobal.
    destruct (startedGlobal sp) eqn:Hs; [exact Hw|].
    destruct Hw as (Hp & Hprog & Hres & Hrej & Hpos).
    rewrite Hs in *.
    unfold well_formed.
    cbn [ui progress opened startedGlobal resolve reject].
    rewrite protocol_app, Hp, Hprog. cbn [protocol fst snd].
    rewrite Nat.eqb_refl, Nat.sub_1_r. cbn [Nat.pred].
    repeat split; auto; lia.
  - unfold finishGlobal.
    destruct (startedGlobal sp) eqn:Hs; cbn [negb]; [|exact Hw].
    destruct Hw as (Hp & Hprog & Hres & Hrej & Hpos).
    rewrite Hs in *.
    unfold well_formed.
    cbn [ui progress opened startedGlobal resolve reject].
    rewrite protocol_app, Hp, Hres, Hprog. cbn [protocol fst snd].
    rewrite Nat.eqb_refl. repeat split; auto; discriminate.
  - now apply globalStep_well_formed.
  - unfold setWorkspace. apply globalStep_well_formed.
    exact Hw.
  - unfold workspaceStep. now apply globalStep_well_formed.
Qed.

Lemma calls_well_formed cs sp :
  well_formed sp ->
  well_formed (fold_left (call num zero one falsy percent) cs sp).
Proof.
  revert sp. induction cs as [|c cs IH]; intros sp Hw; [exact Hw|].
  cbn [fold_left]. apply IH. now apply call_well_formed.
Qed.

Lemma new_well_formed : well_formed new_StartupProgress.
Proof.
  unfold well_formed. cbn. repeat split; auto; discriminate.
Qed.

Lemma quiet_call sp c :
  startedGlobal sp = false -> c <> CallStartGlobal num ->
  let sp' := call num zero one falsy percent sp c in
  startedGlobal sp' = false /\ ui sp' = ui sp /\ opened sp' = opened sp.
Proof.
  intros Hs Hc. destruct c as [| |step max title msg|nm|step max msg];
    cbn [call]; cbv zeta.
  - congruence.
  - unfold finishGlobal. now rewrite Hs.
  - unfold globalStep. now rewrite Hs.
  - unfold setWorkspace, globalStep. cbn [startedGlobal].
    now rewrite Hs.
  - unfold workspaceStep, globalStep. now rewrite Hs.
Qed.

End StartupProofs.

(** X14. Whatever calls are made on a new [StartupProgress], in whatever
    order, the window sees a well-formed conversation: progress sessions are
    opened one at a time, every report goes to the session that is open, and
    a session is resolved once, while open.  Along the way [progress],
    [resolve] and [reject] are set together, to the last session opened,
    exactly while [startedGlobal] holds; so the guards on [progress] and
    [resolve] never fail on their own. *)
Theorem StartupProgress_protocol
        (num : Type) (zero one : num) (falsy : num -> bool)
        (percent : num -> num -> string) (cs : list (Call num)) :
  let sp := calls num zero one falsy percent cs in
  protocol (ui sp) (None, 0%nat) = Some (progress sp, opened sp)
  /\ progress sp = (if startedGlobal sp then Some (opened sp - 1)%nat else None)
  /\ resolve sp = progress sp
  /\ reject sp = progress sp
  /\ (startedGlobal sp = true -> (0 < opened sp)%nat).
Proof.
  cbv zeta. unfold calls.
  apply (calls_well_formed num zero one falsy percent cs new_StartupProgress).
  apply new_well_formed.
Qed.

(** X15. While [startedGlobal] is off nothing reaches the window: any calls
    other than [startGlobal] leave what the window was asked to do, the
    sessions opened and [startedGlobal] as they were ([setWorkspace] still
    records the name). *)
Theorem StartupProgress_quiet_until_started
        (num : Type) (zero one : num) (falsy : num -> bool)
        (percent : num -> num -> string)
        (cs : list (Call num)) (sp : StartupProgress) :
  startedGlobal sp = false ->
  ~ In (CallStartGlobal num) cs ->
  let sp' := fold_left (call num zero one falsy percent) cs sp in
  startedGlobal sp' = false
  /\ ui sp' = ui sp
  /\ opened sp' = opened sp
  /\ (forall nm, workspace
                   (setWorkspace num zero one falsy percent nm sp') = Some nm).
Proof.
  cbv zeta. revert sp. induction cs as [|c cs IH]; intros sp Hs Hn.
  - cbn [fold_left]. repeat split; auto.
    intros nm. unfold setWorkspace, globalStep. cbn [startedGlobal].
    now rewrite Hs.
  - cbn [fold_left].
    destruct (quiet_call num zero one falsy percent sp c Hs) as (Hs' & Hu & Ho).
    { intros ->. apply Hn. now left. }
    destruct (IH (call num zero one falsy percent sp c) Hs') as (A & B & C & D).
    { intros Hin. apply Hn. now right. }
    repeat split; auto; congruence.
Qed.

Lemma StartupProgress_quiet_until_started_witness :
  let sp' :=
    fold_left (call nat 0%nat 1%nat (Nat.eqb 0) (fun _ _ => "50.0 %"))
      [CallSetWorkspace nat "app"; CallWorkspaceStep nat 1%nat 2%nat "build";
       CallFinishGlobal nat]
      new_StartupProgress in
  startedGlobal sp' = false /\ ui sp' = [] /\ opened sp' = 0%nat.
Proof.
  cbv zeta.
  destruct (StartupProgress_quiet_until_started
              nat 0%nat 1%nat (Nat.eqb 0) (fun _ _ => "50.0 %")
              [CallSetWorkspace nat "app";
               CallWorkspaceStep nat 1%nat 2%nat "build";
               CallFinishGlobal nat]
              new_StartupProgress eq_refl) as (A & B & C & _).
  - intros [H | [H | [H | []]]]; discriminate.
  - repeat split; assumption.
Defined.
